(** * Content-aware portrait cropping of [scripts/clip.py]

    A shallow embedding of [resize_for_tiktok]: the heat-map aggregation,
    the sliding crop-window search, the scene-list normalisation, the
    heuristic positional crop and the four-stage fallback cascade with its
    effects on the file system.

    Conventions.
    - Python [int] values are [Z]; [a // b] is [Z.div] (floor), [int(f)] of a
      float is truncation toward zero ([Z.quot]).
    - numpy [float32] pixels and Python floats are idealised as rationals
      [Q]: rounding is not modelled, comparisons and sums are exact.
    - A numpy array of shape [(height, width)] is a list of rows.
    - Calls that leave the process (ffmpeg, ffprobe, OpenCV detectors, the
      ClipsAI resizer) are answered by an explicit environment record. *)

From Stdlib Require Import ZArith QArith Qminmax Qabs Qround List Bool Lia Lqa.
From Stdlib Require Import Sorting.Sorted Sorting.Permutation.
From Stdlib Require String.
Import String.StringSyntax.
Import ListNotations.

Local Open Scope Z_scope.

(** ** Arrays *)

Definition grid := list (list Q).


(** An array of [h] rows of [w] entries. *)
Definition has_shape (g : grid) (h w : nat) : Prop :=
  length g = h /\ Forall (fun row => length row = w) g.

(** [np.zeros((height, width))] *)
Definition np_zeros (height width : Z) : grid :=
  repeat (repeat 0%Q (Z.to_nat width)) (Z.to_nat height).

(** [g[r][c]], with [0] outside the array (only used inside it). *)
Definition pixel (g : grid) (r c : nat) : Q := nth c (nth r g []) 0%Q.

Definition Qsum (l : list Q) : Q := fold_right Qplus 0%Q l.

(** [a[lo:hi]] for [0 <= lo <= hi]: out-of-range bounds are clipped. *)
Definition py_slice {A} (l : list A) (lo hi : Z) : list A :=
  firstn (Z.to_nat (hi - lo)) (skipn (Z.to_nat lo) l).

(** [range(start, stop, step)] for a positive [step]. *)
Definition py_range (start stop step : Z) : list Z :=
  map (fun i => start + Z.of_nat i * step)
      (seq 0 (Z.to_nat ((stop - start + step - 1) / step))).

(** ** Crop window selector (clip.py, 540-563) *)

Module Selector.

(** Lines 542-549. [9/16] is exact in binary floating point and [16/9]
    times an integer below 2^40 truncates to the same integer as the exact
    quotient, so both [int(...)] are computed on integers. *)
Definition target_dims (width height : Z) : Z * Z :=
  let target_width := Z.quot (height * 9) 16 in
  if target_width >? width
  then (width, Z.quot (width * 16) 9)
  else (target_width, height).

(** [np.sum(avg_heat_map[:target_height, x:x+target_width])] *)
Definition crop_score (avg_heat_map : grid) (target_width target_height x : Z) : Q :=
  Qsum (map (fun row => Qsum (py_slice row x (x + target_width)))
            (py_slice avg_heat_map 0 target_height)).

(** One iteration of the loop body, on the pair [(best_score, best_x)]. *)
Definition scan_step (score : Z -> Q) (best : Q * Z) (x : Z) : Q * Z :=
  if Qle_bool (score x) (fst best) then best else (score x, x).

Definition scan (score : Z -> Q) (candidates : list Z) : Q * Z :=
  fold_left (scan_step score) candidates ((-1)%Q, 0).

Definition step_size (width target_width : Z) : Z :=
  Z.max 1 ((width - target_width) / 10).

Definition candidates (width target_width : Z) : list Z :=
  py_range 0 (width - target_width + 1) (step_size width target_width).

Record CropWindow := mkCrop {
  crop_x : Z; crop_y : Z; crop_width : Z; crop_height : Z }.

(** Lines 540-563 and the crop handed to ffmpeg at line 587:
    [crop={target_width}:{target_height}:{best_x}:0]. *)
Definition select_crop (width height : Z) (avg_heat_map : grid) : CropWindow :=
  let target_width := fst (target_dims width height) in
  let target_height := snd (target_dims width height) in
  let best := scan (crop_score avg_heat_map target_width target_height)
                   (candidates width target_width) in
  {| crop_x := snd best; crop_y := 0;
     crop_width := target_width; crop_height := target_height |}.

End Selector.

(** ** Heat map aggregator (clip.py, 502-538) *)

Module HeatMap.

(** A face as [detectMultiScale] reports it: [(x, y, w, h)], covering the
    columns [x .. x+w-1] and the rows [y .. y+h-1]. *)
Record Face := mkFace { face_x : Z; face_y : Z; face_w : Z; face_h : Z }.

(** What the two detectors return on one key frame: the faces, and the
    saliency map when [computeSaliency] reports success. *)
Record KeyFrame := mkKeyFrame {
  faces : list Face;
  saliency : option grid }.

Definition face_weight : Q := 6 # 10.
Definition salience_weight : Q := 4 # 10.

Fixpoint imap_from {A B} (f : nat -> A -> B) (i : nat) (l : list A) : list B :=
  match l with
  | [] => []
  | a :: t => f i a :: imap_from f (S i) t
  end.

Definition imap {A B} (f : nat -> A -> B) (l : list A) : list B := imap_from f 0 l.

Fixpoint map2 {A B C} (f : A -> B -> C) (l : list A) (m : list B) : list C :=
  match l, m with
  | a :: l', b :: m' => f a b :: map2 f l' m'
  | _, _ => []
  end.

(** Elementwise [a += b] and [a /= n] on arrays of one shape. *)
Definition grid_add (a b : grid) : grid := map2 (map2 Qplus) a b.
Definition grid_div (a : grid) (n : Q) : grid := map (map (fun v => v / n)%Q) a.

(** The pixels [cv2.rectangle(img, pt1, pt2, color, -1)] fills: OpenCV takes
    [pt1] and [pt2] as opposite corners and both belong to the rectangle. *)
Definition in_box (pt1 pt2 : Z * Z) (col row : Z) : bool :=
  (Z.min (fst pt1) (fst pt2) <=? col) && (col <=? Z.max (fst pt1) (fst pt2)) &&
  (Z.min (snd pt1) (snd pt2) <=? row) && (row <=? Z.max (snd pt1) (snd pt2)).

Definition cv2_rectangle (img : grid) (pt1 pt2 : Z * Z) (color : Q) : grid :=
  imap (fun r row =>
          imap (fun c v => if in_box pt1 pt2 (Z.of_nat c) (Z.of_nat r) then color else v) row)
       img.

(** Line 523, for one face. *)
Definition paint_face (frame_heat_map : grid) (f : Face) : grid :=
  cv2_rectangle frame_heat_map (face_x f, face_y f)
                (face_x f + face_w f, face_y f + face_h f) face_weight.

(** The columns and rows of the face itself. *)
Definition in_face (f : Face) (col row : Z) : bool :=
  (face_x f <=? col) && (col <? face_x f + face_w f) &&
  (face_y f <=? row) && (row <? face_y f + face_h f).

(** [(saliency_map * 255).astype("uint8")] followed by [.astype(np.float32)] *)
Definition to_uint8 (v : Q) : Q :=
  let scaled := (v * 255)%Q in
  inject_Z ((Z.quot (Qnum scaled) (Zpos (Qden scaled))) mod 256).

Definition list_min (l : list Q) : Q :=
  match l with [] => 0%Q | x :: t => fold_left Qmin t x end.
Definition list_max (l : list Q) : Q :=
  match l with [] => 0%Q | x :: t => fold_left Qmax t x end.

Definition DBL_EPSILON : Q := 1 # 4503599627370496.

(** [cv2.normalize(src, None, alpha, beta, cv2.NORM_MINMAX)]: OpenCV's
    [scale = (dmax - dmin) * (smax - smin > DBL_EPSILON ? 1/(smax - smin) : 0)],
    [shift = dmin - smin * scale], [dst = src * scale + shift]. *)
Definition cv2_normalize_minmax (src : grid) (alpha beta : Q) : grid :=
  let smin := list_min (concat src) in
  let smax := list_max (concat src) in
  let dmin := Qmin alpha beta in
  let dmax := Qmax alpha beta in
  let scale := ((dmax - dmin) *
                (if Qle_bool (smax - smin) DBL_EPSILON then 0 else / (smax - smin)))%Q in
  let shift := (dmin - smin * scale)%Q in
  map (map (fun v => v * scale + shift)%Q) src.

(** Lines 515-523: the zero map with every face painted. *)
Definition painted_faces (height width : Z) (fs : list Face) : grid :=
  fold_left paint_face fs (np_zeros height width).

(** Lines 515-531: the contribution of one key frame. *)
Definition frame_heat_map (height width : Z) (kf : KeyFrame) : grid :=
  let painted := painted_faces height width (faces kf) in
  match saliency kf with
  | Some saliency_map =>
      grid_add painted
        (cv2_normalize_minmax (map (map to_uint8) saliency_map) 0 salience_weight)
  | None => painted
  end.

(** Lines 503-534: the running sum over the key frames. *)
Definition heat_sum (height width : Z) (key_frame_samples : list KeyFrame) : grid :=
  fold_left (fun avg kf => grid_add avg (frame_heat_map height width kf))
            key_frame_samples (np_zeros height width).

(** Lines 503-538. *)
Definition avg_heat_map (height width : Z) (key_frame_samples : list KeyFrame) : grid :=
  let total := heat_sum height width key_frame_samples in
  if (0 <? length key_frame_samples)%nat
  then grid_div total (inject_Z (Z.of_nat (length key_frame_samples)))
  else total.

End HeatMap.

(** ** Scene list and frame sampling (clip.py, 445-491) *)

Module Scenes.

(** A scene is the pair of its first and one-past-last frame numbers. *)
Definition Scene : Type := Z * Z.

(** Lines 451-454. *)
Definition effective_scene_list (scene_list : list Scene) (total_frames : Z) : list Scene :=
  if (length scene_list =? 0)%nat || (20 <? length scene_list)%nat
  then [(0, total_frames)]
  else scene_list.

(** Line 481. *)
Definition mid_frame (s : Scene) : Z := (fst s + snd s) / 2.

(** Lines 459-491: the frames that [cap.read()] decodes, in scene order. *)
Fixpoint sample_key_frames {F} (cap_read : Z -> option F) (scenes : list Scene) : list F :=
  match scenes with
  | [] => []
  | s :: rest =>
      match cap_read (mid_frame s) with
      | Some frame => frame :: sample_key_frames cap_read rest
      | None => sample_key_frames cap_read rest
      end
  end.

End Scenes.

(** ** Heuristic positional crop (clip.py, 679-751) *)

Module Heuristic.

Local Open Scope Q_scope.
Local Open Scope string_scope.

Record CropPos := mkPos {
  pos_x : Q; pos_y : Q; pos_width : Q; pos_height : Q; pos_desc : String.string }.

Definition golden_ratio : Q := 618 # 1000.

(** [max(0, v)] of Python: [v] when [0 < v], else [0]. *)
Definition max0 (v : Q) : Q := Qmax 0 v.

Definition target_height (height : Q) : Q := height.
Definition target_width (height : Q) : Q := height * (9 / 16).

Definition left_golden (width height : Q) : Q :=
  max0 ((width - target_width height) * golden_ratio).
Definition right_golden (width height : Q) : Q :=
  max0 ((width - target_width height) * (1 - golden_ratio)).

(** Lines 692-727. *)
Definition crop_positions (width height : Q) : list CropPos :=
  let tw := target_width height in
  let th := target_height height in
  [ mkPos (max0 ((width - tw) / 2)) 0 tw th "center";
    mkPos (left_golden width height) 0 tw th "golden_left";
    mkPos (right_golden width height) 0 tw th "golden_right";
    mkPos 0 0 tw th "left_align";
    mkPos (max0 (width - tw)) 0 tw th "right_align" ].

(** Lines 730-733: each candidate paired with the path of its test frame. *)
Definition test_frames (width height : Q) : list (String.string * CropPos) :=
  map (fun pos => (String.append "crop_" (String.append (pos_desc pos) ".jpg"), pos)) (crop_positions width height).

(** Line 748: [next((pos for _, pos in test_frames if pos['desc'] == 'golden_left'),
    crop_positions[0])]. The cropped test frames written by ffmpeg are not read
    back; [frame_files] only names the frame they are cut from. *)
Definition best_pos (width height : Q) (frame_files : list String.string) : CropPos :=
  match find (fun pos => String.eqb (pos_desc pos) "golden_left")
             (map snd (test_frames width height)) with
  | Some pos => pos
  | None => hd (mkPos 0 0 0 0 "") (crop_positions width height)
  end.

End Heuristic.

(** ** The fallback cascade (clip.py, 187-842) *)

Module Cascade.

Import Selector HeatMap Scenes Heuristic.

(** *** The part of the file system the function touches *)

(** What is found at [output_file]. *)
Inductive FileState := Absent | Partial | Complete.

(** The working directories: [<output dir>/temp_resize] (line 275), the
    [tempfile.mkdtemp(prefix="scene_analysis_")] directory (line 449) and
    [<output dir>/scene_analysis] (line 660). *)
Inductive TempDir := TempResize | SceneAnalysisTmp | FramesDir.

Definition TempDir_eqb (a b : TempDir) : bool :=
  match a, b with
  | TempResize, TempResize | SceneAnalysisTmp, SceneAnalysisTmp
  | FramesDir, FramesDir => true
  | _, _ => false
  end.

(** The four methods, named as the comments of the source name them; the
    specification numbers them stage 1 to stage 4. *)
Inductive Stage := Method1 | Method1_5 | Method2 | Method3.

(** The video filters of the ffmpeg commands and the files they write. *)
Inductive Filter :=
| SegmentCrop (x y w h : Q)
| ConcatCopy (segment_files : list nat)
| WindowCrop (c : CropWindow)
| PositionCrop (p : CropPos)
| RuleOfThirds.

Inductive Target := SegmentFile (i : nat) | OutputFile.

Inductive Event :=
| Enter (s : Stage)
| Run (f : Filter) (t : Target).

Record World := mkWorld {
  output_file : FileState;
  temp_dirs : list TempDir;
  log : list Event }.

Definition log_event (ev : Event) (w : World) : World :=
  mkWorld (output_file w) (temp_dirs w) (log w ++ [ev]).

(** [os.makedirs(d, exist_ok=True)] and [tempfile.mkdtemp]. *)
Definition make_dir (d : TempDir) (w : World) : World :=
  mkWorld (output_file w)
          (if existsb (TempDir_eqb d) (temp_dirs w) then temp_dirs w else d :: temp_dirs w)
          (log w).

(** [shutil.rmtree(d)] *)
Definition remove_dir (d : TempDir) (w : World) : World :=
  mkWorld (output_file w)
          (filter (fun d' => negb (TempDir_eqb d d')) (temp_dirs w))
          (log w).

(** *** The answers of the collaborators *)

(** One run of ffmpeg with [-y <file>]: exit status 0 and a finished file;
    a non-zero exit status, having written part of the file or nothing; or
    [Popen] raising before the process starts. *)
Inductive Ffmpeg := FfOk | FfFail (wrote : bool) | FfRaise.

Definition is_ok (r : Ffmpeg) : bool :=
  match r with FfOk => true | _ => false end.

(** The effect on [output_file] of an ffmpeg run that targets it. *)
Definition write_output (r : Ffmpeg) (w : World) : World :=
  mkWorld (match r with
           | FfOk => Complete
           | FfFail true => Partial
           | _ => output_file w
           end)
          (temp_dirs w) (log w).

(** A segment of the ClipsAI result; [segment.get(k)] is [None] when the
    key is missing. *)
Record Segment := mkSegment {
  start_time : option Q; end_time : option Q;
  seg_x : option Q; seg_y : option Q;
  seg_width : option Q; seg_height : option Q }.

(** Lines 216-273: an exception before [crops] is examined, a falsy [crops],
    an object without [segments], or the list of segments. *)
Inductive ResizeResult :=
| ResizeRaises
| ResizeNone
| ResizeNoSegmentsAttr
| ResizeSegments (segments : list Segment).

(** Lines 636-655: an exception (also from parsing the csv line), a non-zero
    exit status, or the width and height as floats. *)
Inductive Probe :=
| ProbeRaises
| ProbeFails
| ProbeOk (width height : Q).

Record Env := mkEnv {
  RESIZE_AVAILABLE : bool;
  SCENE_DETECT_AVAILABLE : bool;
  makedirs_output_ok : bool;          (* line 205 *)
  rmtree_ok : TempDir -> bool;
  (* Method 1 *)
  clipsai_resize : ResizeResult;
  ffmpeg_segment : nat -> Ffmpeg;     (* line 339, by segment index *)
  ffmpeg_concat : Ffmpeg;             (* lines 359-383 *)
  (* Method 1.5 *)
  cap_width : Z;
  cap_height : Z;
  cap_total_frames : Z;
  detect_scenes : option (list Scene);  (* [None]: lines 421-446 raise *)
  cap_read : Z -> option KeyFrame;      (* line 485, by frame number *)
  analysis_raises : bool;               (* lines 497-578 raise *)
  ffmpeg_scene : Ffmpeg;                (* line 601 *)
  (* Method 2 *)
  ffprobe : Probe;
  frame_files : list String.string;     (* line 674 *)
  ffmpeg_advanced : Ffmpeg;             (* line 772 *)
  (* Method 3 *)
  ffmpeg_thirds : Ffmpeg }.             (* line 816 *)

(** *** Method 1: ClipsAI segments (lines 208-410) *)

(** Lines 282-354, with the list [segment_files] of the indices of the
    segments whose file was written. *)
Fixpoint process_segments (e : Env) (i : nat) (segments : list Segment)
         (w : World) (segment_files : list nat) : World * list nat :=
  match segments with
  | [] => (w, segment_files)
  | s :: rest =>
      match start_time s, end_time s with
      | Some _, Some _ =>
          match seg_x s, seg_y s, seg_width s, seg_height s with
          | Some x, Some y, Some cw, Some ch =>
              if Qle_bool cw 0 || Qle_bool ch 0
              then process_segments e (S i) rest w segment_files
              else
                let w1 := log_event (Run (SegmentCrop x y cw ch) (SegmentFile i)) w in
                match ffmpeg_segment e i with
                | FfOk => process_segments e (S i) rest w1 (segment_files ++ [i])
                | _ => process_segments e (S i) rest w1 segment_files
                end
          | _, _, _, _ => process_segments e (S i) rest w segment_files
          end
      | _, _ => process_segments e (S i) rest w segment_files
      end
  end.

Definition method1 (e : Env) (w : World) : World * bool :=
  let w := log_event (Enter Method1) w in
  match clipsai_resize e with
  | ResizeSegments ((_ :: _) as segments) =>
      let w := make_dir TempResize w in
      let '(w, segment_files) := process_segments e 0 segments w [] in
      match segment_files with
      | [] => (w, false)
      | _ :: _ =>
          let w := log_event (Run (ConcatCopy segment_files) OutputFile) w in
          (write_output (ffmpeg_concat e) w, is_ok (ffmpeg_concat e))
      end
  | _ => (w, false)
  end.

(** *** Method 1.5: scenes, saliency and faces (lines 413-629) *)

Definition key_frame_samples (e : Env) (scene_list : list Scene) : list KeyFrame :=
  sample_key_frames (cap_read e)
    (effective_scene_list scene_list (cap_total_frames e)).

Definition scene_crop (e : Env) (scene_list : list Scene) : CropWindow :=
  select_crop (cap_width e) (cap_height e)
    (avg_heat_map (cap_height e) (cap_width e) (key_frame_samples e scene_list)).

Definition method1_5 (e : Env) (w : World) : World * bool :=
  let w := log_event (Enter Method1_5) w in
  match detect_scenes e with
  | None => (w, false)
  | Some scene_list =>
      let w := make_dir SceneAnalysisTmp w in
      if analysis_raises e then (w, false)
      else
        let w := log_event (Run (WindowCrop (scene_crop e scene_list)) OutputFile) w in
        match ffmpeg_scene e with
        | FfRaise => (w, false)
        | r =>
            let w := write_output r w in
            let w := if rmtree_ok e SceneAnalysisTmp
                     then remove_dir SceneAnalysisTmp w else w in
            (w, is_ok r)
        end
  end.

(** *** Method 2: heuristic positional crop (lines 632-796) *)

Definition method2 (e : Env) (w : World) : World * bool :=
  let w := log_event (Enter Method2) w in
  match ffprobe e with
  | ProbeOk width height =>
      let w := make_dir FramesDir w in
      match frame_files e with
      | [] => (w, false)
      | _ :: _ =>
          let w := log_event
                     (Run (PositionCrop (best_pos width height (frame_files e))) OutputFile) w in
          match ffmpeg_advanced e with
          | FfRaise => (w, false)
          | r =>
              let w := write_output r w in
              let w := if rmtree_ok e FramesDir then remove_dir FramesDir w else w in
              (w, is_ok r)
          end
      end
  | _ => (w, false)
  end.

(** *** Method 3: rule of thirds (lines 799-832) *)

Definition method3 (e : Env) (w : World) : World * bool :=
  let w := log_event (Enter Method3) w in
  let w := log_event (Run RuleOfThirds OutputFile) w in
  match ffmpeg_thirds e with
  | FfRaise => (w, false)
  | r => (write_output r w, is_ok r)
  end.

(** *** The cascade (lines 199-842) *)

Definition run_stage (e : Env) (s : Stage) (w : World) : World * bool :=
  match s with
  | Method1 => method1 e w
  | Method1_5 => method1_5 e w
  | Method2 => method2 e w
  | Method3 => method3 e w
  end.

Definition resize_for_tiktok (e : Env) (w : World) : World * bool :=
  if negb (RESIZE_AVAILABLE e) then (w, false)
  else if negb (makedirs_output_ok e) then (w, false)
  else
    let '(w, ok) := method1 e w in
    if ok then (w, true)
    else
      let '(w, ok) :=
        if SCENE_DETECT_AVAILABLE e then method1_5 e w else (w, false) in
      if ok then (w, true)
      else
        let '(w, ok) := method2 e w in
        if ok then (w, true)
        else
          let '(w, ok) := method3 e w in
          if ok then (w, true) else (w, false).

(** The stages entered, in order, as the log records them. *)
Fixpoint entered (l : list Event) : list Stage :=
  match l with
  | [] => []
  | Enter s :: rest => s :: entered rest
  | Run _ _ :: rest => entered rest
  end.

(** The ffmpeg runs that target [output_file], in order. *)
Fixpoint output_runs (l : list Event) : list Filter :=
  match l with
  | [] => []
  | Run f OutputFile :: rest => f :: output_runs rest
  | _ :: rest => output_runs rest
  end.

End Cascade.

(** ** Vocabulary of the statements and sample inputs *)

Module Samples.

Import Selector HeatMap Scenes Heuristic Cascade.


(** The stages in the order the function reaches them. *)
Definition plan (e : Env) : list Stage :=
  Method1 :: (if SCENE_DETECT_AVAILABLE e then [Method1_5] else []) ++ [Method2; Method3].

(** A stage succeeds when its code returns [True]. *)
Definition succeeds (e : Env) (s : Stage) : bool :=
  snd (run_stage e s (mkWorld Absent [] [])).

(** The stages of a plan up to and including the first that succeeds. *)
Fixpoint until_success (ok : Stage -> bool) (l : list Stage) : list Stage :=
  match l with
  | [] => []
  | s :: rest => if ok s then [s] else s :: until_success ok rest
  end.

Definition fresh : World := mkWorld Absent [] [].

(** The ffmpeg run of a stage that writes [output_file]. *)
Definition final_transcode (e : Env) (s : Stage) : Ffmpeg :=
  match s with
  | Method1 => ffmpeg_concat e
  | Method1_5 => ffmpeg_scene e
  | Method2 => ffmpeg_advanced e
  | Method3 => ffmpeg_thirds e
  end.

(** What one stage may do to the world around its own effects. *)
Record stage_frame (e : Env) (s : Stage) (w w' : World) (ok : bool) : Prop := {
  frame_ok : ok = succeeds e s;
  frame_entered : entered (log w') = entered (log w) ++ [s];
  frame_complete : ok = true -> output_file w' = Complete;
  frame_failed : ok = false ->
                 output_file w' = Partial \/ output_file w' = output_file w;
  frame_untouched : ok = false -> final_transcode e s <> FfFail true ->
                    output_file w' = output_file w;
  frame_resize_dir : In TempResize (temp_dirs w) -> In TempResize (temp_dirs w') }.

(** A plan run stage by stage, stopping at the first success. *)
Fixpoint run_plan (e : Env) (l : list Stage) (w : World) : World * bool :=
  match l with
  | [] => (w, false)
  | s :: rest =>
      let '(w', ok) := run_stage e s w in
      if ok then (w', true) else run_plan e rest w'
  end.

Local Open Scope string_scope.
Definition frame_0001 : String.string := "frame_0001.jpg".
Local Close Scope string_scope.

(** Every collaborator fails: the resizer raises, no scene library, ffprobe
    and every ffmpeg run exit with an error and write nothing. *)
Definition env_all_fail : Env :=
  {| RESIZE_AVAILABLE := true; SCENE_DETECT_AVAILABLE := true;
     makedirs_output_ok := true; rmtree_ok := fun _ => true;
     clipsai_resize := ResizeRaises; ffmpeg_segment := fun _ => FfFail false;
     ffmpeg_concat := FfFail false;
     cap_width := 64; cap_height := 36; cap_total_frames := 100;
     detect_scenes := None; cap_read := fun _ => None; analysis_raises := false;
     ffmpeg_scene := FfFail false;
     ffprobe := ProbeFails; frame_files := []; ffmpeg_advanced := FfFail false;
     ffmpeg_thirds := FfFail false |}.

Definition with_thirds (r : Ffmpeg) (e : Env) : Env :=
  {| RESIZE_AVAILABLE := RESIZE_AVAILABLE e;
     SCENE_DETECT_AVAILABLE := SCENE_DETECT_AVAILABLE e;
     makedirs_output_ok := makedirs_output_ok e; rmtree_ok := rmtree_ok e;
     clipsai_resize := clipsai_resize e; ffmpeg_segment := ffmpeg_segment e;
     ffmpeg_concat := ffmpeg_concat e;
     cap_width := cap_width e; cap_height := cap_height e;
     cap_total_frames := cap_total_frames e;
     detect_scenes := detect_scenes e; cap_read := cap_read e;
     analysis_raises := analysis_raises e; ffmpeg_scene := ffmpeg_scene e;
     ffprobe := ffprobe e; frame_files := frame_files e;
     ffmpeg_advanced := ffmpeg_advanced e;
     ffmpeg_thirds := r |}.



(** The resizer raises; one scene is detected in a 64x36 video of 100
    frames but [cap.read()] decodes no frame; ffmpeg succeeds. *)
Definition env_no_frames : Env :=
  {| RESIZE_AVAILABLE := true; SCENE_DETECT_AVAILABLE := true;
     makedirs_output_ok := true; rmtree_ok := fun _ => true;
     clipsai_resize := ResizeRaises; ffmpeg_segment := fun _ => FfOk;
     ffmpeg_concat := FfOk;
     cap_width := 64; cap_height := 36; cap_total_frames := 100;
     detect_scenes := Some [(0, 100)]; cap_read := fun _ => None;
     analysis_raises := false; ffmpeg_scene := FfOk;
     ffprobe := ProbeOk 64 36; frame_files := [frame_0001];
     ffmpeg_advanced := FfOk; ffmpeg_thirds := FfOk |}.

(** The resizer returns one well-formed segment, cut and concatenated
    without error. *)
Definition env_one_segment : Env :=
  {| RESIZE_AVAILABLE := true; SCENE_DETECT_AVAILABLE := true;
     makedirs_output_ok := true; rmtree_ok := fun _ => true;
     clipsai_resize :=
       ResizeSegments [mkSegment (Some 0%Q) (Some 12%Q) (Some (1 # 4)) (Some 0%Q)
                                 (Some (1 # 2)) (Some 1%Q)];
     ffmpeg_segment := fun _ => FfOk; ffmpeg_concat := FfOk;
     cap_width := 64; cap_height := 36; cap_total_frames := 100;
     detect_scenes := Some [(0, 100)]; cap_read := fun _ => None;
     analysis_raises := false; ffmpeg_scene := FfOk;
     ffprobe := ProbeOk 64 36; frame_files := [frame_0001];
     ffmpeg_advanced := FfOk; ffmpeg_thirds := FfOk |}.

End Samples.

(** ** Subtitle files (clip.py, 102-185) *)

Module Srt.

(** A transcribed word: [w.text], [w.start_time], [w.end_time]. *)
Record Word := mkWord {
  word_text : String.string;
  word_start : Q;
  word_end : Q }.

(** Lines 119-122: the condition of the list comprehension. *)
Definition in_range (clip_start clip_end : Q) (w : Word) : bool :=
  (Qle_bool clip_start (word_start w) && Qle_bool (word_start w) clip_end) ||
  (Qle_bool clip_start (word_end w) && Qle_bool (word_end w) clip_end) ||
  (Qle_bool (word_start w) clip_start && Qle_bool clip_end (word_end w)).

Definition words_in_range (clip_start clip_end : Q) (words : list Word) : list Word :=
  filter (in_range clip_start clip_end) words.

Record Block := mkBlock {
  block_start : Q;
  block_end : Q;
  block_text : String.string }.

Definition words_per_line : nat := 4.

Local Open Scope string_scope.

(** [' '.join([w.text for w in current_block])] *)
Definition join_words (ws : list Word) : String.string :=
  String.concat " " (map word_text ws).

Local Close Scope string_scope.

(** The dictionary appended at lines 144-148 and 154-158. *)
Definition make_block (clip_start current_block_start current_block_end : Q)
           (current_block : list Word) : Block :=
  mkBlock (Qmax 0 (current_block_start - clip_start))
          (Qmax 0 (current_block_end - clip_start))
          (join_words current_block).

(** The variables of the loop of lines 129-150. *)
Record Grouping := mkGrouping {
  subtitle_blocks : list Block;
  current_block : list Word;
  current_block_start : option Q;
  current_block_end : option Q }.

Definition grouping_start : Grouping := mkGrouping [] [] None None.

(** Lines 137-150, one word. *)
Definition add_word (clip_start : Q) (g : Grouping) (word : Word) : Grouping :=
  let start := match current_block_start g with
               | None => word_start word
               | Some s => s
               end in
  let block := current_block g ++ [word] in
  if (words_per_line <=? length block)%nat
  then mkGrouping (subtitle_blocks g ++ [make_block clip_start start (word_end word) block])
                  [] None (Some (word_end word))
  else mkGrouping (subtitle_blocks g) block (Some start) (Some (word_end word)).

(** Lines 129-158. The subtraction at lines 155-156 raises [TypeError] on a
    [None] bound; [None] stands for that exception. *)
Definition group_words (clip_start : Q) (words : list Word) : option (list Block) :=
  let g := fold_left (add_word clip_start) words grouping_start in
  match current_block g with
  | [] => Some (subtitle_blocks g)
  | _ :: _ =>
      match current_block_start g, current_block_end g with
      | Some s, Some e =>
          Some (subtitle_blocks g ++ [make_block clip_start s e (current_block g)])
      | _, _ => None
      end
  end.

(** [int(f)] of a float: truncation toward zero. *)
Definition py_int (q : Q) : Z := Z.quot (Qnum q) (Zpos (Qden q)).

(** [x // y] and [x % y] on floats, for a positive [y]. *)
Definition float_floordiv (x y : Q) : Q := inject_Z (Qfloor (x / y)).
Definition float_mod (x y : Q) : Q := (x - y * float_floordiv x y)%Q.

(** The four fields printed as [HH:MM:SS,mmm]. *)
Record Stamp := mkStamp {
  stamp_h : Z; stamp_m : Z; stamp_s : Z; stamp_ms : Z }.

(** Lines 166-174. *)
Definition timestamp (t : Q) : Stamp :=
  mkStamp (py_int (float_floordiv t 3600))
          (py_int (float_floordiv (float_mod t 3600) 60))
          (py_int (float_mod t 60))
          (py_int (float_mod t 1 * 1000)).

(** One numbered entry of the file: lines 162-178. *)
Record Entry := mkEntry {
  entry_number : nat;
  entry_from : Stamp;
  entry_to : Stamp;
  entry_text : String.string }.

Definition srt_entries (blocks : list Block) : list Entry :=
  HeatMap.imap (fun i block =>
                  mkEntry (i + 1) (timestamp (block_start block))
                          (timestamp (block_end block)) (block_text block))
               blocks.

(** Lines 114-185: the entries written to the file, if it is written, and
    the value returned. [open_ok] tells whether [open(output_srt_path, 'w')]
    and the writes succeed. *)
Definition create_srt_file (words : list Word) (clip_start clip_end : Q)
           (open_ok : bool) : option (list Entry) * bool :=
  match words_in_range clip_start clip_end words with
  | [] => (None, false)
  | (_ :: _) as in_range_words =>
      match group_words clip_start in_range_words with
      | None => (None, false)
      | Some blocks => if open_ok then (Some (srt_entries blocks), true) else (None, false)
      end
  end.

End Srt.

(** ** The clip loop of [main] (clip.py, 905-948) *)

Module Driver.










End Driver.

(** ** Vocabulary of the further statements *)

Module Terms.

Import Selector HeatMap Scenes Heuristic Cascade Srt Driver.


(** A segment with both times, the four crop fields and a positive size. *)
Definition segment_usable (s : Segment) : bool :=
  match start_time s, end_time s, seg_x s, seg_y s, seg_width s, seg_height s with
  | Some _, Some _, Some _, Some _, Some cw, Some ch =>
      negb (Qle_bool cw 0) && negb (Qle_bool ch 0)
  | _, _, _, _, _, _ => false
  end.

(** The indices, from [i] on, of the segments that are usable and whose
    ffmpeg run exits with status 0. *)
Definition surviving (e : Env) (i : nat) (segments : list Segment) : list nat :=
  map fst (filter (fun p => segment_usable (snd p) && is_ok (ffmpeg_segment e (fst p)))
                  (combine (seq i (length segments)) segments)).

(** The segment files ffmpeg was asked to write, as the log records them. *)
Fixpoint segment_targets (l : list Event) : list nat :=
  match l with
  | [] => []
  | Run _ (SegmentFile i) :: rest => i :: segment_targets rest
  | _ :: rest => segment_targets rest
  end.

(** The indices, from [i] on, of the usable segments. *)
Definition usable_indices (i : nat) (segments : list Segment) : list nat :=
  map fst (filter (fun p => segment_usable (snd p))
                  (combine (seq i (length segments)) segments)).




Definition no_word : Word := mkWord String.EmptyString 0 0.

(** The block made of a non-empty group of consecutive words. *)
Definition block_of (clip_start : Q) (group : list Word) : Block :=
  make_block clip_start (word_start (hd no_word group))
             (word_end (last group no_word)) group.

Definition start_of (cur : list Word) : option Q :=
  match cur with
  | [] => None
  | w :: _ => Some (word_start w)
  end.

(** What the grouping loop keeps true: the finished blocks are the blocks
    of groups of four words, and the open block is shorter. *)
Record grouping_inv (clip_start : Q) (groups : list (list Word)) (g : Grouping) : Prop := {
  inv_blocks : subtitle_blocks g = map (block_of clip_start) groups;
  inv_start : current_block_start g = start_of (current_block g);
  inv_end : current_block g <> [] ->
            current_block_end g = Some (word_end (last (current_block g) no_word));
  inv_full : Forall (fun group => length group = 4%nat) groups;
  inv_short : (length (current_block g) < 4)%nat }.





Local Open Scope string_scope.

Definition sample_words : list Word :=
  [ mkWord "so" 0 (1 # 2); mkWord "this" (1 # 2) 1;
    mkWord "is" 1 (3 # 2); mkWord "the" (3 # 2) 2;
    mkWord "plan" 2 (5 # 2); mkWord "today" 4 5 ].

Local Close Scope string_scope.

End Terms.

(** * Properties *)

(** ** Lists, ranges and sums *)

Lemma Qle_bool_false (a b : Q) : Qle_bool a b = false -> (b < a)%Q.
Proof.
  intros H. apply Qnot_le_lt. intros Hle.
  apply Qle_bool_iff in Hle. congruence.
Qed.





Lemma py_range_In (stop step x : Z) :
  0 < step ->
  In x (py_range 0 stop step) <-> exists k, 0 <= k /\ x = k * step /\ x < stop.
Proof.
  intros Hs. unfold py_range. rewrite in_map_iff. split.
  - intros (i & <- & Hi). apply in_seq in Hi.
    exists (Z.of_nat i). repeat split; try lia.
    assert (Hlt : Z.of_nat i < (stop - 0 + step - 1) / step) by lia.
    assert (Z.of_nat i + 1 <= (stop - 0 + step - 1) / step) by lia.
    assert (step * ((stop - 0 + step - 1) / step) <= stop - 0 + step - 1)
      by (apply Z.mul_div_le; lia).
    nia.
  - intros (k & Hk & -> & Hlt).
    exists (Z.to_nat k). split; [lia|].
    apply in_seq. split; [lia|]. simpl.
    assert (k + 1 <= (stop - 0 + step - 1) / step); [|lia].
    apply Z.div_le_lower_bound; [lia|nia].
Qed.





(** ** The crop window selector *)

Section ScanFacts.

Import Selector.

Variable score : Z -> Q.

(** The loop either keeps its initial pair, every score seen being at most
    the initial best, or stops on the first position of the highest score. *)
Lemma scan_from_spec (l : list Z) (s0 : Q) (x0 : Z) :
  let r := fold_left (scan_step score) l (s0, x0) in
  (r = (s0, x0) /\ forall y, In y l -> (score y <= s0)%Q) \/
  (exists l1 l2, l = l1 ++ snd r :: l2 /\ fst r = score (snd r) /\ (s0 < fst r)%Q /\
     (forall y, In y l1 -> (score y < fst r)%Q) /\
     (forall y, In y l2 -> (score y <= fst r)%Q)).
Proof.
  induction l as [|a l IH] using rev_ind; cbv zeta in *.
  - left. split; [reflexivity|intros y []].
  - rewrite fold_left_app. cbn [fold_left].
    remember (fold_left (scan_step score) l (s0, x0)) as r' eqn:Er in *.
    clear Er. unfold scan_step.
    destruct (Qle_bool (score a) (fst r')) eqn:Hcmp.
    + apply Qle_bool_iff in Hcmp.
      destruct IH as [[Hr Hall]|(l1 & l2 & Hl & Hf & Hlt & H1 & H2)].
      * left. split; [exact Hr|].
        intros y Hy. apply in_app_or in Hy. destruct Hy as [Hy|[<-|[]]]; auto.
        rewrite Hr in Hcmp. exact Hcmp.
      * right. exists l1, (l2 ++ [a]). repeat split; auto.
        -- rewrite Hl, <- app_assoc. reflexivity.
        -- intros y Hy. apply in_app_or in Hy. destruct Hy as [Hy|[<-|[]]]; auto.
    + apply Qle_bool_false in Hcmp. right. exists l, []. simpl.
      destruct IH as [[Hr Hall]|(l1 & l2 & Hl & Hf & Hlt & H1 & H2)].
      * rewrite Hr in Hcmp. simpl in Hcmp. repeat split; auto.
        -- intros y Hy. specialize (Hall y Hy). lra.
        -- intros y [].
      * repeat split; auto; try lra.
        -- intros y Hy. rewrite Hl in Hy. apply in_app_or in Hy.
           destruct Hy as [Hy|[<-|Hy]].
           ++ specialize (H1 y Hy). lra.
           ++ rewrite <- Hf. exact Hcmp.
           ++ specialize (H2 y Hy). lra.
        -- intros y [].
Qed.

End ScanFacts.

Section SelectorFacts.

Import Selector Samples.

Lemma target_dims_bounds (width height : Z) :
  0 <= width -> 0 <= height ->
  0 <= fst (target_dims width height) <= width /\
  0 <= snd (target_dims width height) <= height.
Proof.
  intros Hw Hh. unfold target_dims.
  rewrite !Z.quot_div_nonneg by lia.
  pose proof (Z.div_mod (height * 9) 16 ltac:(lia)).
  pose proof (Z.mod_pos_bound (height * 9) 16 ltac:(lia)).
  pose proof (Z.div_mod (width * 16) 9 ltac:(lia)).
  pose proof (Z.mod_pos_bound (width * 16) 9 ltac:(lia)).
  destruct (Z.gtb_spec (height * 9 / 16) width); simpl; lia.
Qed.

Lemma step_size_pos (width target_width : Z) : 0 < step_size width target_width.
Proof. unfold step_size. lia. Qed.


Lemma candidates_In (width tw x : Z) :
  In x (candidates width tw) <->
  exists k, 0 <= k /\ x = k * Z.max 1 ((width - tw) / 10) /\ x <= width - tw.
Proof.
  unfold candidates. rewrite py_range_In by apply step_size_pos.
  unfold step_size. split; intros (k & Hk & Hx & Hle); exists k; repeat split; auto; lia.
Qed.





End SelectorFacts.

Section CropGeometry.

Import Selector.

Lemma scan_result_in_range (score : Z -> Q) (width tw : Z) :
  0 <= tw <= width ->
  0 <= snd (scan score (candidates width tw)) <= width - tw.
Proof.
  intros Htw. unfold scan.
  destruct (scan_from_spec score (candidates width tw) (-1)%Q 0)
    as [[-> _]|(l1 & l2 & Hl & _)]; simpl; [lia|].
  assert (Hin : In (snd (fold_left (scan_step score) (candidates width tw) ((-1)%Q, 0)))
                   (candidates width tw)) by (rewrite Hl at 2; apply in_elt).
  apply candidates_In in Hin. destruct Hin as (k & Hk & Hx & Hle).
  rewrite Hx at 1. split; [|exact Hle].
  apply Z.mul_nonneg_nonneg; lia.
Qed.

(** C2, as the code has it. For every heat map the window handed to ffmpeg
    has vertical offset 0 and lies inside the frame. Its size keeps the frame
    height with the width [9*height // 16] when that fits, and otherwise
    keeps the frame width with the smaller height [16*width // 9]. The sides
    are whole pixels, so the ratio is 9/16 up to that truncation:
    [-9 < 9*h - 16*w < 16], exact when the preserved height is a multiple of
    16 or the preserved width a multiple of 9. *)
Theorem crop_window_in_frame (width height : Z) (hm : grid) :
  0 <= width -> 0 <= height ->
  let c := select_crop width height hm in
  crop_y c = 0 /\
  0 <= crop_x c /\ crop_x c + crop_width c <= width /\
  0 <= crop_width c /\ 0 <= crop_height c <= height /\
  -9 < 9 * crop_height c - 16 * crop_width c < 16 /\
  (height * 9 / 16 <= width ->
     crop_height c = height /\ crop_width c = height * 9 / 16 /\
     (height mod 16 = 0 -> 16 * crop_width c = 9 * crop_height c)) /\
  (width < height * 9 / 16 ->
     crop_width c = width /\ crop_height c = width * 16 / 9 /\ crop_height c < height /\
     (width mod 9 = 0 -> 16 * crop_width c = 9 * crop_height c)).
Proof.
  intros Hw Hh c.
  pose proof (target_dims_bounds width height Hw Hh) as [Htw Hth].
  pose proof (scan_result_in_range
                (crop_score hm (fst (target_dims width height))
                            (snd (target_dims width height)))
                width _ Htw) as Hx.
  assert (Hy : crop_y c = 0) by reflexivity.
  assert (Hcx : crop_x c = snd (scan (crop_score hm (fst (target_dims width height))
                                                 (snd (target_dims width height)))
                                     (candidates width (fst (target_dims width height)))))
    by reflexivity.
  assert (Hcw : crop_width c = fst (target_dims width height)) by reflexivity.
  assert (Hch : crop_height c = snd (target_dims width height)) by reflexivity.
  rewrite <- Hcx in Hx. rewrite <- Hcw in Hx, Htw. rewrite <- Hch in Hth.
  clearbody c. clear Hcx.
  unfold target_dims in Hcw, Hch. rewrite !Z.quot_div_nonneg in Hcw, Hch by lia.
  pose proof (Z.div_mod (height * 9) 16 ltac:(lia)).
  pose proof (Z.mod_pos_bound (height * 9) 16 ltac:(lia)).
  pose proof (Z.div_mod (width * 16) 9 ltac:(lia)).
  pose proof (Z.mod_pos_bound (width * 16) 9 ltac:(lia)).
  assert (Hm16 : height mod 16 = 0 -> (height * 9) mod 16 = 0).
  { intros Hm. rewrite <- Z.mul_mod_idemp_l, Hm by lia. reflexivity. }
  assert (Hm9 : width mod 9 = 0 -> (width * 16) mod 9 = 0).
  { intros Hm. rewrite <- Z.mul_mod_idemp_l, Hm by lia. reflexivity. }
  destruct (Z.gtb_spec (height * 9 / 16) width) as [Hgt|Hle];
    cbn [fst snd] in Hcw, Hch;
    (split; [exact Hy|]); repeat split; intros; lia.
Qed.

Lemma crop_window_in_frame_witness :
  let c := select_crop 1280 720 (np_zeros 720 1280) in
  crop_y c = 0 /\ crop_x c + crop_width c <= 1280 /\
  crop_width c = 405 /\ crop_height c = 720.
Proof.
  pose proof (crop_window_in_frame 1280 720 (np_zeros 720 1280)
                ltac:(lia) ltac:(lia)) as H.
  cbv zeta in H. destruct H as (Hy & _ & Hx & _ & _ & _ & Hfit & _).
  destruct (Hfit ltac:(vm_compute; discriminate)) as (Hh & Hwd & _).
  cbv zeta. repeat split; assumption.
Defined.

(** C2 as stated fails on a 1920x1080 frame: the window is 607 pixels wide
    and 1080 high, and 607/1080 is 1/2160 below 9/16, far outside any
    floating-point tolerance. *)
Lemma crop_ratio_1080p_differs :
  let c := select_crop 1920 1080 (np_zeros 1080 1920) in
  crop_width c = 607 /\ crop_height c = 1080 /\
  (inject_Z (crop_width c) / inject_Z (crop_height c) - (9 # 16) == - (1 # 2160))%Q /\
  ~ (Qabs (inject_Z (crop_width c) / inject_Z (crop_height c) - (9 # 16)) <= 1 # 10000)%Q.
Proof.
  cbv zeta.
  change (crop_width (select_crop 1920 1080 (np_zeros 1080 1920)))
    with (fst (target_dims 1920 1080)).
  change (crop_height (select_crop 1920 1080 (np_zeros 1080 1920)))
    with (snd (target_dims 1920 1080)).
  assert (E : target_dims 1920 1080 = (607, 1080)) by (vm_compute; reflexivity).
  rewrite E. cbn [fst snd].
  repeat split; try reflexivity.
  intros H. vm_compute in H. apply H. reflexivity.
Qed.

End CropGeometry.

(** ** The heat map aggregator *)

Section HeatMapBounds.

Import HeatMap.

Lemma Forall_imap_from {A B} (P : A -> Prop) (R : B -> Prop) (f : nat -> A -> B)
      (l : list A) (s : nat) :
  (forall i a, P a -> R (f i a)) -> Forall P l -> Forall R (imap_from f s l).
Proof.
  intros Hf H. revert s. induction H; intros s; simpl; constructor; auto.
Qed.

Lemma Forall_map2 {A B C} (P : A -> Prop) (R : B -> Prop) (S : C -> Prop)
      (f : A -> B -> C) (l : list A) (m : list B) :
  (forall a b, P a -> R b -> S (f a b)) ->
  Forall P l -> Forall R m -> Forall S (map2 f l m).
Proof.
  intros Hf Hl. revert m. induction Hl; intros m Hm; simpl; [constructor|].
  destruct Hm; constructor; auto.
Qed.
















End HeatMapBounds.

Section HeatMapPixels.

Import HeatMap.

Lemma has_shape_row (g : grid) (h w r : nat) :
  has_shape g h w -> (r < h)%nat -> length (nth r g []) = w.
Proof.
  intros [Hl Hrows] Hr. rewrite Forall_forall in Hrows.
  apply Hrows, nth_In. lia.
Qed.

Lemma imap_from_length {A B} (f : nat -> A -> B) (s : nat) (l : list A) :
  length (imap_from f s l) = length l.
Proof. revert s. induction l; intros s; simpl; auto. Qed.

Lemma imap_from_nth {A B} (f : nat -> A -> B) (l : list A) (s i : nat) (da : A) (db : B) :
  (i < length l)%nat -> nth i (imap_from f s l) db = f (s + i)%nat (nth i l da).
Proof.
  revert s i. induction l as [|a l IH]; intros s i Hi; simpl in *; [lia|].
  destruct i as [|i].
  - now rewrite Nat.add_0_r.
  - rewrite IH by lia. f_equal. lia.
Qed.

Lemma map2_length {A B C} (f : A -> B -> C) (l : list A) (m : list B) :
  length l = length m -> length (map2 f l m) = length l.
Proof.
  revert m. induction l as [|a l IH]; intros [|b m] H; simpl in *; try lia.
  now rewrite IH by lia.
Qed.

Lemma map2_nth {A B C} (f : A -> B -> C) (l : list A) (m : list B) (i : nat)
      (da : A) (db : B) (dc : C) :
  (i < length l)%nat -> (i < length m)%nat ->
  nth i (map2 f l m) dc = f (nth i l da) (nth i m db).
Proof.
  revert m i. induction l as [|a l IH]; intros [|b m] i Hl Hm; simpl in *; try lia.
  destruct i as [|i]; [reflexivity|]. apply IH; lia.
Qed.

Lemma np_zeros_shape (height width : Z) :
  has_shape (np_zeros height width) (Z.to_nat height) (Z.to_nat width).
Proof.
  unfold has_shape, np_zeros. split; [apply repeat_length|].
  apply Forall_forall. intros row Hrow. apply repeat_spec in Hrow. subst row.
  apply repeat_length.
Qed.

Lemma np_zeros_pixel (height width : Z) (r c : nat) :
  pixel (np_zeros height width) r c = 0%Q.
Proof.
  unfold pixel, np_zeros.
  destruct (Nat.lt_ge_cases r (Z.to_nat height)) as [Hr|Hr].
  - rewrite nth_repeat_lt by exact Hr.
    destruct (Nat.lt_ge_cases c (Z.to_nat width)) as [Hc|Hc].
    + now rewrite nth_repeat_lt.
    + apply nth_overflow. now rewrite repeat_length.
  - rewrite (nth_overflow _ []) by now rewrite repeat_length.
    now destruct c.
Qed.

Lemma rectangle_shape (img : grid) (pt1 pt2 : Z * Z) (color : Q) (h w : nat) :
  has_shape img h w -> has_shape (cv2_rectangle img pt1 pt2 color) h w.
Proof.
  intros [Hl Hrows]. unfold has_shape, cv2_rectangle, imap. split.
  - now rewrite imap_from_length.
  - eapply Forall_imap_from; [|exact Hrows]. cbv beta. intros r row Hrow.
    now rewrite imap_from_length.
Qed.

(** A filled rectangle sets exactly the pixels between the two corners,
    corners included, and leaves the others. *)
Lemma rectangle_pixel (img : grid) (pt1 pt2 : Z * Z) (color : Q) (h w r c : nat) :
  has_shape img h w -> (r < h)%nat -> (c < w)%nat ->
  pixel (cv2_rectangle img pt1 pt2 color) r c =
  if in_box pt1 pt2 (Z.of_nat c) (Z.of_nat r) then color else pixel img r c.
Proof.
  intros Hs Hr Hc. pose proof (has_shape_row _ _ _ _ Hs Hr) as Hrow.
  destruct Hs as [Hl _]. unfold pixel, cv2_rectangle, imap.
  rewrite (imap_from_nth _ img 0 r [] []) by lia.
  rewrite (imap_from_nth _ (nth r img []) 0 c 0%Q 0%Q) by lia.
  reflexivity.
Qed.

Lemma grid_add_shape (a b : grid) (h w : nat) :
  has_shape a h w -> has_shape b h w -> has_shape (grid_add a b) h w.
Proof.
  intros [Hla Ha] [Hlb Hb]. unfold has_shape, grid_add. split.
  - rewrite map2_length; lia.
  - eapply Forall_map2; [|exact Ha|exact Hb]. cbv beta.
    intros ra rb Hra Hrb. rewrite map2_length; lia.
Qed.

Lemma grid_add_pixel (a b : grid) (h w r c : nat) :
  has_shape a h w -> has_shape b h w -> (r < h)%nat -> (c < w)%nat ->
  pixel (grid_add a b) r c = (pixel a r c + pixel b r c)%Q.
Proof.
  intros Ha Hb Hr Hc.
  pose proof (has_shape_row _ _ _ _ Ha Hr) as Hra.
  pose proof (has_shape_row _ _ _ _ Hb Hr) as Hrb.
  destruct Ha as [Hla _], Hb as [Hlb _]. unfold pixel, grid_add.
  rewrite (map2_nth _ a b r [] [] []) by lia.
  rewrite (map2_nth _ _ _ c 0%Q 0%Q 0%Q) by lia.
  reflexivity.
Qed.

Lemma grid_map_pixel (f : Q -> Q) (g : grid) (h w r c : nat) :
  has_shape g h w -> (r < h)%nat -> (c < w)%nat ->
  pixel (map (map f) g) r c = f (pixel g r c).
Proof.
  intros Hs Hr Hc. pose proof (has_shape_row _ _ _ _ Hs Hr) as Hrow.
  destruct Hs as [Hl _]. unfold pixel.
  rewrite (nth_indep _ [] (map f [])) by (rewrite length_map; lia).
  rewrite map_nth.
  rewrite (nth_indep _ 0%Q (f 0%Q)) by (rewrite length_map; lia).
  now rewrite map_nth.
Qed.

Lemma grid_map_shape (f : Q -> Q) (g : grid) (h w : nat) :
  has_shape g h w -> has_shape (map (map f) g) h w.
Proof.
  intros [Hl Hrows]. unfold has_shape. split; [now rewrite length_map|].
  apply Forall_map. eapply Forall_impl; [|exact Hrows].
  cbv beta. intros row Hrow. now rewrite length_map.
Qed.

(** An all-zero saliency map stays all-zero through the 8-bit conversion
    and the min-max normalisation. *)
Lemma quantized_zeros (height width : Z) :
  map (map to_uint8) (np_zeros height width) = np_zeros height width.
Proof.
  unfold np_zeros. rewrite map_repeat. f_equal. now rewrite map_repeat.
Qed.

Lemma fold_min_zeros (l : list Q) :
  Forall (fun v => v = 0%Q) l -> fold_left Qmin l 0%Q = 0%Q.
Proof. induction 1 as [|v l -> _ IH]; simpl; [reflexivity|exact IH]. Qed.

Lemma fold_max_zeros (l : list Q) :
  Forall (fun v => v = 0%Q) l -> fold_left Qmax l 0%Q = 0%Q.
Proof. induction 1 as [|v l -> _ IH]; simpl; [reflexivity|exact IH]. Qed.

Lemma concat_zeros (height width : Z) :
  Forall (fun v => v = 0%Q) (List.concat (np_zeros height width)).
Proof.
  unfold np_zeros. induction (Z.to_nat height) as [|n IH]; simpl; [constructor|].
  apply Forall_app. split; [|exact IH].
  apply Forall_forall. intros v Hv. now apply repeat_spec in Hv.
Qed.

Lemma normalize_zeros_pixel (height width : Z) (r c : nat) :
  (r < Z.to_nat height)%nat -> (c < Z.to_nat width)%nat ->
  (pixel (cv2_normalize_minmax (np_zeros height width) 0 salience_weight) r c == 0)%Q.
Proof.
  intros Hr Hc. unfold cv2_normalize_minmax.
  rewrite (grid_map_pixel _ _ _ _ r c (np_zeros_shape height width) Hr Hc).
  rewrite np_zeros_pixel.
  pose proof (concat_zeros height width) as Hz.
  assert (Emin : list_min (List.concat (np_zeros height width)) = 0%Q).
  { unfold list_min. destruct Hz as [|v l -> Hl]; [reflexivity|now apply fold_min_zeros]. }
  assert (Emax : list_max (List.concat (np_zeros height width)) = 0%Q).
  { unfold list_max. destruct Hz as [|v l -> Hl]; [reflexivity|now apply fold_max_zeros]. }
  rewrite Emin, Emax. reflexivity.
Qed.

(** One key frame with one face and an all-zero saliency map: the
    aggregated map is 0.6 on the columns [x .. x+w] and rows [y .. y+h],
    both ends included, and 0 on every other pixel of the frame. *)
Lemma single_face_heat_map (height width : Z) (f : Face) (r c : nat) :
  (r < Z.to_nat height)%nat -> (c < Z.to_nat width)%nat ->
  (pixel (avg_heat_map height width [mkKeyFrame [f] (Some (np_zeros height width))]) r c ==
   if in_box (face_x f, face_y f) (face_x f + face_w f, face_y f + face_h f)%Z
             (Z.of_nat c) (Z.of_nat r)
   then face_weight else 0)%Q.
Proof.
  intros Hr Hc. unfold avg_heat_map, heat_sum, frame_heat_map, painted_faces.
  cbn [length Nat.ltb Nat.leb fold_left faces saliency].
  rewrite quantized_zeros.
  pose proof (np_zeros_shape height width) as Hz.
  assert (Hp : has_shape (paint_face (np_zeros height width) f)
                         (Z.to_nat height) (Z.to_nat width))
    by (apply rectangle_shape; exact Hz).
  assert (Hn : has_shape (cv2_normalize_minmax (np_zeros height width) 0 salience_weight)
                         (Z.to_nat height) (Z.to_nat width))
    by (apply grid_map_shape; exact Hz).
  unfold grid_div.
  rewrite (grid_map_pixel _ _ (Z.to_nat height) (Z.to_nat width))
    by (auto using grid_add_shape).
  rewrite (grid_add_pixel _ _ (Z.to_nat height) (Z.to_nat width))
    by (auto using grid_add_shape).
  rewrite (grid_add_pixel _ _ (Z.to_nat height) (Z.to_nat width)) by auto.
  rewrite np_zeros_pixel, normalize_zeros_pixel by assumption.
  unfold paint_face.
  rewrite (rectangle_pixel _ _ _ _ (Z.to_nat height) (Z.to_nat width)) by auto.
  rewrite np_zeros_pixel.
  change (inject_Z (Z.of_nat 1)) with 1%Q.
  destruct (in_box _ _ _ _); field.
Qed.

(** C3 at a 5x5 frame with the 2x2 face at (1, 1) and no saliency: the face
    covers the rows and columns 1 and 2, and the aggregated map is 0.6 on the
    rows and columns 1 to 3. The pixel (3, 3), outside the face, holds 0.6. *)
Lemma face_paint_covers_far_corner :
  let f := mkFace 1 1 2 2 in
  let hm := avg_heat_map 5 5 [mkKeyFrame [f] (Some (np_zeros 5 5))] in
  in_face f 2 2 = true /\ (pixel hm 2 2 == face_weight)%Q /\
  in_face f 3 3 = false /\ (pixel hm 3 3 == face_weight)%Q /\
  in_face f 4 4 = false /\ (pixel hm 4 4 == 0)%Q.
Proof. vm_compute. repeat split; reflexivity. Qed.

(** C3 at the frame of the specification's own scenario: 1920x1080, one
    200x200 face at (200, 300), no saliency. The face covers the columns 200
    to 399 and the rows 300 to 499; the pixel at column 400, row 500 lies
    outside it and holds 0.6 all the same. *)
Lemma face_paint_spills_past_face :
  let f := mkFace 200 300 200 200 in
  let hm := avg_heat_map 1080 1920 [mkKeyFrame [f] (Some (np_zeros 1080 1920))] in
  in_face f 399 499 = true /\ (pixel hm 499 399 == face_weight)%Q /\
  in_face f 400 500 = false /\ (pixel hm 500 400 == face_weight)%Q /\
  in_face f 401 501 = false /\ (pixel hm 501 401 == 0)%Q.
Proof.
  cbv zeta.
  split; [reflexivity|]. split.
  { eapply Qeq_trans;
      [apply single_face_heat_map; apply Nat.ltb_lt; reflexivity
      |vm_compute; reflexivity]. }
  split; [reflexivity|]. split.
  { eapply Qeq_trans;
      [apply single_face_heat_map; apply Nat.ltb_lt; reflexivity
      |vm_compute; reflexivity]. }
  split; [reflexivity|].
  eapply Qeq_trans;
    [apply single_face_heat_map; apply Nat.ltb_lt; reflexivity
    |vm_compute; reflexivity].
Qed.

End HeatMapPixels.

(** ** The scene list *)

Section SceneFacts.

Import Scenes.

(** C5. With no detected scene or more than 20, the scene list becomes the
    single interval [(0, total_frames)]; any other list is used as it is. *)
Theorem scene_list_collapse (scene_list : list Scene) (total_frames : Z) :
  (length scene_list = 0%nat \/ (20 < length scene_list)%nat ->
     effective_scene_list scene_list total_frames = [(0, total_frames)]) /\
  ((0 < length scene_list <= 20)%nat ->
     effective_scene_list scene_list total_frames = scene_list).
Proof.
  unfold effective_scene_list.
  destruct (Nat.eqb_spec (length scene_list) 0) as [Hz|Hnz];
    destruct (Nat.ltb_spec 20 (length scene_list)) as [Hbig|Hsmall];
    simpl; split; intros H; try reflexivity; lia.
Qed.

Lemma scene_list_collapse_witness :
  effective_scene_list (repeat (0, 10) 21) 630 = [(0, 630)] /\
  effective_scene_list [] 630 = [(0, 630)] /\
  effective_scene_list [(0, 300); (300, 630)] 630 = [(0, 300); (300, 630)].
Proof.
  pose proof (scene_list_collapse (repeat (0, 10) 21) 630) as [H1 _].
  pose proof (scene_list_collapse [] 630) as [H2 _].
  pose proof (scene_list_collapse [(0, 300); (300, 630)] 630) as [_ H3].
  split; [apply H1; right; simpl; lia|].
  split; [apply H2; left; reflexivity|].
  apply H3. simpl. lia.
Defined.

End SceneFacts.

(** ** The heuristic positional crop *)

Section HeuristicFacts.

Import Heuristic.
Local Open Scope string_scope.

(** C6, as the code has it. The candidate taken is always the second of the
    five, [golden_left], whatever frames were extracted: its height is the
    frame height, its width [height * 9/16], its offset
    [max(0, (width - target_width) * 0.618)], which is the product itself
    when the frame is at least as wide as the target and 0 when it is
    narrower. *)
Theorem heuristic_selects_golden_left (width height : Q) (frame_files : list String.string) :
  let p := best_pos width height frame_files in
  nth_error (crop_positions width height) 1 = Some p /\
  pos_desc p = "golden_left" /\
  pos_x p = Qmax 0 ((width - height * (9 / 16)) * (618 # 1000)) /\
  pos_y p = 0%Q /\
  pos_width p = (height * (9 / 16))%Q /\
  pos_height p = height /\
  (height * (9 / 16) <= width ->
     pos_x p == (width - height * (9 / 16)) * (618 # 1000))%Q /\
  (width <= height * (9 / 16) -> pos_x p == 0)%Q /\
  (forall other_files, best_pos width height other_files = p).
Proof.
  cbv zeta. unfold best_pos, test_frames, crop_positions.
  cbn [map snd find pos_desc String.eqb Ascii.eqb Bool.eqb nth_error
       pos_x pos_y pos_width pos_height].
  unfold left_golden, max0, target_width, target_height, golden_ratio.
  repeat split.
  - intros Hfit. apply Q.max_r. lra.
  - intros Hnarrow. apply Q.max_l. lra.
Qed.

Lemma heuristic_selects_golden_left_witness :
  (pos_x (best_pos 1000 1000 []) == (1000 - 1000 * (9 / 16)) * (618 # 1000))%Q /\
  (pos_x (best_pos 500 1000 []) == 0)%Q.
Proof.
  pose proof (heuristic_selects_golden_left 1000 1000 []) as H1.
  pose proof (heuristic_selects_golden_left 500 1000 []) as H2.
  cbv zeta in H1, H2.
  destruct H1 as (_ & _ & _ & _ & _ & _ & H1 & _).
  destruct H2 as (_ & _ & _ & _ & _ & _ & _ & H2 & _).
  split; [apply H1|apply H2]; vm_compute; discriminate.
Defined.

(** C6 as stated fails on a 500x1000 frame: the target is 562.5 wide, so
    [(width - target_width) * 0.618] is negative and the offset used is 0. *)
Lemma heuristic_offset_clamped_on_narrow_frame :
  let p := best_pos 500 1000 [] in
  (pos_x p == 0)%Q /\
  ((500 - pos_width p) * (618 # 1000) == - (38625 # 1000))%Q /\
  ~ (pos_x p == (500 - pos_width p) * (618 # 1000))%Q.
Proof.
  vm_compute. repeat split; try reflexivity. discriminate.
Qed.

End HeuristicFacts.

(** ** The cascade *)

Section CascadeFacts.

Import Selector HeatMap Scenes Heuristic Cascade Samples.

Lemma entered_app (l1 l2 : list Event) : entered (l1 ++ l2) = entered l1 ++ entered l2.
Proof.
  induction l1 as [|[s|f t] l1 IH]; simpl; [reflexivity| |exact IH].
  now rewrite IH.
Qed.

Lemma output_runs_app (l1 l2 : list Event) :
  output_runs (l1 ++ l2) = output_runs l1 ++ output_runs l2.
Proof.
  induction l1 as [|[s|f [i|]] l1 IH]; simpl; auto. now rewrite IH.
Qed.

Lemma process_segments_frame (e : Env) (segments : list Segment) :
  forall i w files,
    let r := process_segments e i segments w files in
    output_file (fst r) = output_file w /\
    temp_dirs (fst r) = temp_dirs w /\
    entered (log (fst r)) = entered (log w) /\
    output_runs (log (fst r)) = output_runs (log w) /\
    forall w2, snd (process_segments e i segments w2 files) = snd r.
Proof.
  induction segments as [|s rest IH]; intros i w files; cbn [process_segments].
  - cbv zeta. simpl. auto.
  - destruct (start_time s), (end_time s); try apply IH.
    destruct (seg_x s), (seg_y s), (seg_width s), (seg_height s); try apply IH.
    destruct (Qle_bool q3 0 || Qle_bool q4 0); [apply IH|].
    set (w1 := log_event _ w).
    assert (Hw1 : output_file w1 = output_file w /\ temp_dirs w1 = temp_dirs w /\
                  entered (log w1) = entered (log w) /\
                  output_runs (log w1) = output_runs (log w)).
    { unfold w1, log_event. simpl. rewrite entered_app, output_runs_app. simpl.
      now rewrite !app_nil_r. }
    destruct Hw1 as (H1 & H2 & H3 & H4).
    destruct (ffmpeg_segment e i);
      match goal with
      | |- context [process_segments e (S i) rest w1 ?f] =>
          specialize (IH (S i) w1 f); cbv zeta in IH |- *;
          destruct IH as (I1 & I2 & I3 & I4 & I5);
          rewrite I1, I2, I3, I4; repeat split; auto
      end.
Qed.

Lemma in_make_dir (d d' : TempDir) (w : World) :
  In d (temp_dirs w) -> In d (temp_dirs (make_dir d' w)).
Proof.
  unfold make_dir. simpl. destruct (existsb _ _); simpl; auto.
Qed.

Lemma make_dir_In (d : TempDir) (w : World) : In d (temp_dirs (make_dir d w)).
Proof.
  unfold make_dir. simpl. destruct (existsb (TempDir_eqb d) (temp_dirs w)) eqn:E.
  - apply existsb_exists in E. destruct E as (x & Hx & Heq).
    now destruct d, x.
  - now left.
Qed.

Lemma in_remove_dir (d d' : TempDir) (w : World) :
  d <> d' -> In d (temp_dirs w) -> In d (temp_dirs (remove_dir d' w)).
Proof.
  intros Hne H. unfold remove_dir. simpl. apply filter_In. split; [exact H|].
  destruct d, d'; try reflexivity; congruence.
Qed.

Lemma method1_frame (e : Env) (w : World) :
  stage_frame e Method1 w (fst (method1 e w)) (snd (method1 e w)).
Proof.
  assert (Hlog : forall w0, entered (log (log_event (Enter Method1) w0))
                            = entered (log w0) ++ [Method1]).
  { intros w0. unfold log_event. simpl. now rewrite entered_app. }
  unfold succeeds, run_stage, method1.
  destruct (clipsai_resize e) as [| | |[|s segs]] eqn:Eres.
  1-4: (constructor; simpl;
        [ unfold succeeds, run_stage, method1; rewrite Eres; reflexivity
        | apply Hlog | discriminate | auto | auto | auto ]).
  set (wa := make_dir TempResize (log_event (Enter Method1) w)).
  pose proof (process_segments_frame e (s :: segs) 0 wa []) as Ha.
  cbv zeta in Ha. destruct Ha as (A1 & A2 & A3 & A4 & A5).
  assert (Hok : succeeds e Method1 =
                snd (let '(w0, files) := process_segments e 0 (s :: segs) wa [] in
                     match files with
                     | [] => (w0, false)
                     | _ :: _ => (w0, is_ok (ffmpeg_concat e))
                     end)).
  { unfold succeeds, run_stage, method1. rewrite Eres.
    match goal with
    | |- context [process_segments e 0 (s :: segs) ?wb []] =>
        pose proof (A5 wb) as B5;
        destruct (process_segments e 0 (s :: segs) wb []) as [w2 files2]
    end.
    destruct (process_segments e 0 (s :: segs) wa []) as [w1 files1].
    simpl in B5. subst files2. now destruct files1. }
  destruct (process_segments e 0 (s :: segs) wa []) as [w1 files1] eqn:E1.
  simpl in A1, A2, A3, A4, Hok.
  assert (Hdir : In TempResize (temp_dirs w1))
    by (rewrite A2; apply make_dir_In).
  destruct files1 as [|f files1]; simpl; constructor; simpl.
  - rewrite Hok. reflexivity.
  - rewrite A3. apply Hlog.
  - discriminate.
  - intros _. right. exact A1.
  - intros _ _. exact A1.
  - intros _. exact Hdir.
  - rewrite Hok. reflexivity.
  - rewrite entered_app, A3. simpl. rewrite app_nil_r. apply Hlog.
  - destruct (ffmpeg_concat e); simpl; congruence.
  - rewrite A1. destruct (ffmpeg_concat e) as [|[|]|]; simpl; auto; discriminate.
  - rewrite A1. destruct (ffmpeg_concat e) as [|[|]|]; simpl; congruence.
  - intros _. exact Hdir.
Qed.

Lemma in_log_event (d : TempDir) (ev : Event) (w : World) :
  In d (temp_dirs w) -> In d (temp_dirs (log_event ev w)).
Proof. exact (fun H => H). Qed.

Lemma in_write_output (d : TempDir) (r : Ffmpeg) (w : World) :
  In d (temp_dirs w) -> In d (temp_dirs (write_output r w)).
Proof. exact (fun H => H). Qed.

Ltac keep_resize_dir :=
  intros;
  repeat match goal with
         | |- In _ (temp_dirs (log_event _ _)) => apply in_log_event
         | |- In _ (temp_dirs (write_output _ _)) => apply in_write_output
         | |- In _ (temp_dirs (make_dir _ _)) => apply in_make_dir
         | |- In _ (temp_dirs (remove_dir _ _)) => apply in_remove_dir; [discriminate|]
         end;
  assumption.

Ltac stage_field :=
  first
    [ reflexivity
    | discriminate
    | solve [ cbn [log log_event write_output make_dir remove_dir];
              rewrite ?entered_app; cbn [entered app]; rewrite ?app_nil_r; reflexivity ]
    | solve [ intros; cbn [output_file log_event write_output make_dir remove_dir];
              first [ reflexivity | discriminate | congruence
                    | left; reflexivity | right; reflexivity ] ]
    | solve [ keep_resize_dir ] ].

Lemma method1_5_frame (e : Env) (w : World) :
  stage_frame e Method1_5 w (fst (method1_5 e w)) (snd (method1_5 e w)).
Proof.
  constructor; unfold succeeds, run_stage, final_transcode, method1_5;
    destruct (detect_scenes e) as [scene_list|];
    try destruct (analysis_raises e);
    try destruct (ffmpeg_scene e) as [|[|]|];
    try destruct (rmtree_ok e SceneAnalysisTmp);
    cbn [fst snd is_ok]; stage_field.
Qed.

Lemma method2_frame (e : Env) (w : World) :
  stage_frame e Method2 w (fst (method2 e w)) (snd (method2 e w)).
Proof.
  constructor; unfold succeeds, run_stage, final_transcode, method2;
    destruct (ffprobe e) as [| |width height];
    try destruct (frame_files e) as [|ff ffs];
    try destruct (ffmpeg_advanced e) as [|[|]|];
    try destruct (rmtree_ok e FramesDir);
    cbn [fst snd is_ok]; stage_field.
Qed.

Lemma method3_frame (e : Env) (w : World) :
  stage_frame e Method3 w (fst (method3 e w)) (snd (method3 e w)).
Proof.
  constructor; unfold succeeds, run_stage, final_transcode, method3;
    destruct (ffmpeg_thirds e) as [|[|]|];
    cbn [fst snd is_ok]; stage_field.
Qed.

Lemma run_stage_frame (e : Env) (s : Stage) (w : World) :
  stage_frame e s w (fst (run_stage e s w)) (snd (run_stage e s w)).
Proof.
  destruct s; cbn [run_stage];
    [apply method1_frame|apply method1_5_frame|apply method2_frame|apply method3_frame].
Qed.

(** With the resizer imported and the output directory in place, the
    function is its plan run stage by stage. *)
Lemma cascade_as_plan (e : Env) (w : World) :
  RESIZE_AVAILABLE e = true -> makedirs_output_ok e = true ->
  resize_for_tiktok e w = run_plan e (plan e) w.
Proof.
  intros HR HM. unfold resize_for_tiktok, plan. rewrite HR, HM. cbn [negb].
  destruct (SCENE_DETECT_AVAILABLE e); cbn [app run_plan run_stage];
    destruct (method1 e w) as [w1 [|]]; reflexivity.
Qed.

Lemma run_plan_spec (e : Env) (l : list Stage) :
  forall w,
    let r := run_plan e l w in
    entered (log (fst r)) = entered (log w) ++ until_success (succeeds e) l /\
    snd r = existsb (succeeds e) l /\
    (snd r = true -> output_file (fst r) = Complete) /\
    (snd r = false ->
       output_file (fst r) = Partial \/ output_file (fst r) = output_file w) /\
    (snd r = false -> (forall s, In s l -> final_transcode e s <> FfFail true) ->
       output_file (fst r) = output_file w) /\
    (In TempResize (temp_dirs w) -> In TempResize (temp_dirs (fst r))).
Proof.
  induction l as [|s rest IH]; intros w; cbn [run_plan until_success existsb].
  - cbv zeta. cbn [fst snd]. rewrite app_nil_r.
    repeat split; auto; discriminate.
  - pose proof (run_stage_frame e s w) as F.
    destruct (run_stage e s w) as [w1 ok]. cbn [fst snd] in F.
    destruct F as [Fok Fent Fcomp Ffail Funt Fdir].
    rewrite <- Fok. destruct ok; cbv zeta; cbn [fst snd orb].
    + repeat split; auto; discriminate.
    + specialize (IH w1). cbv zeta in IH.
      destruct IH as (I1 & I2 & I3 & I4 & I5 & I6).
      rewrite I1, Fent, <- app_assoc. cbn [app].
      repeat split; auto.
      * intros Hf. destruct (I4 Hf) as [Hp|Hs]; [now left|].
        rewrite Hs. now apply Ffail.
      * intros Hf Hall. rewrite I5; auto.
        -- apply Funt; auto. apply Hall. now left.
        -- intros s' Hs'. apply Hall. now right.
Qed.




(** *** No decoded frame *)








(** *** The output file *)

(** C8, as the code has it. Every stage lets ffmpeg write [output_file]
    itself and nothing removes or renames it afterwards. A successful run
    leaves the finished file. A failed run leaves the path as its failed
    transcodes left it: untouched when none of them wrote to it, and
    otherwise holding a partial file. *)
Theorem output_written_in_place (e : Env) (w : World) :
  let r := resize_for_tiktok e w in
  (snd r = true -> output_file (fst r) = Complete) /\
  (snd r = false ->
     output_file (fst r) = Partial \/ output_file (fst r) = output_file w) /\
  (snd r = false -> (forall s, final_transcode e s <> FfFail true) ->
     output_file (fst r) = output_file w).
Proof.
  intros r. subst r.
  destruct (RESIZE_AVAILABLE e) eqn:HR;
    [destruct (makedirs_output_ok e) eqn:HM|].
  - rewrite (cascade_as_plan e w HR HM).
    pose proof (run_plan_spec e (plan e) w) as H. cbv zeta in H.
    destruct H as (_ & _ & H3 & H4 & H5 & _).
    repeat split; auto.
  - unfold resize_for_tiktok. rewrite HR, HM. cbn [negb fst snd].
    repeat split; auto; discriminate.
  - unfold resize_for_tiktok. rewrite HR. cbn [negb fst snd].
    repeat split; auto; discriminate.
Qed.

Lemma output_written_in_place_witness :
  output_file (fst (resize_for_tiktok env_one_segment fresh)) = Complete /\
  output_file (fst (resize_for_tiktok env_all_fail fresh)) = Absent.
Proof.
  pose proof (output_written_in_place env_one_segment fresh) as H1.
  pose proof (output_written_in_place env_all_fail fresh) as H2.
  cbv zeta in H1, H2. destruct H1 as (H1 & _). destruct H2 as (_ & _ & H2).
  split; [apply H1; reflexivity|].
  apply H2; [reflexivity|]. intros s. destruct s; discriminate.
Defined.

(** C8 as stated fails when every stage fails and the last ffmpeg run stops
    after it has begun to write: all four stages were entered, the function
    returns [False], and the output path, empty before, holds a partial
    file. *)
Lemma failed_cascade_leaves_partial_file :
  let e := with_thirds (FfFail true) env_all_fail in
  output_file fresh = Absent /\
  snd (resize_for_tiktok e fresh) = false /\
  entered (log (fst (resize_for_tiktok e fresh))) = [Method1; Method1_5; Method2; Method3] /\
  output_runs (log (fst (resize_for_tiktok e fresh))) = [RuleOfThirds] /\
  output_file (fst (resize_for_tiktok e fresh)) = Partial.
Proof. vm_compute. repeat split; reflexivity. Qed.

(** *** The working directories *)

(** Once the resizer has returned segments, [temp_resize] exists when the
    function returns, whatever happens afterwards: no stage removes it. *)
Lemma temp_resize_never_removed (e : Env) (w : World) (s : Segment) (segs : list Segment) :
  RESIZE_AVAILABLE e = true -> makedirs_output_ok e = true ->
  clipsai_resize e = ResizeSegments (s :: segs) ->
  In TempResize (temp_dirs (fst (resize_for_tiktok e w))).
Proof.
  intros HR HM Hres. rewrite (cascade_as_plan e w HR HM).
  unfold plan. cbn [app run_plan run_stage].
  assert (H1 : In TempResize (temp_dirs (fst (method1 e w)))).
  { unfold method1. rewrite Hres.
    set (wa := make_dir TempResize (log_event (Enter Method1) w)).
    pose proof (process_segments_frame e (s :: segs) 0 wa []) as Ha.
    cbv zeta in Ha. destruct Ha as (_ & A2 & _).
    assert (Hdir : In TempResize (temp_dirs wa)) by apply make_dir_In.
    rewrite <- A2 in Hdir.
    destruct (process_segments e 0 (s :: segs) wa []) as [w1 [|f files]];
      cbn [fst snd] in *; exact Hdir. }
  destruct (method1 e w) as [w1 [|]]; cbn [fst] in *; [exact H1|].
  pose proof (run_plan_spec e
                ((if SCENE_DETECT_AVAILABLE e then [Method1_5] else [])
                   ++ [Method2; Method3]) w1) as H.
  cbv zeta in H. destruct H as (_ & _ & _ & _ & _ & H6). now apply H6.
Qed.

(** C9 at a run whose first stage succeeds on one segment: the function
    returns [True] after stage 1 alone and the directory [temp_resize] it
    created is still there. *)
Lemma temp_resize_left_behind :
  temp_dirs fresh = [] /\
  snd (resize_for_tiktok env_one_segment fresh) = true /\
  entered (log (fst (resize_for_tiktok env_one_segment fresh))) = [Method1] /\
  temp_dirs (fst (resize_for_tiktok env_one_segment fresh)) = [TempResize].
Proof. vm_compute. repeat split; reflexivity. Qed.

End CascadeFacts.

(** ** Subtitle files *)

Section SrtFacts.

Import Srt Terms.

Lemma word_overlap_witness_data :
  (word_start (mkWord String.EmptyString (19 # 2) (21 # 2)) <=
   word_end (mkWord String.EmptyString (19 # 2) (21 # 2)))%Q /\ (10 <= 20)%Q.
Proof. split; discriminate. Qed.

(** X1. A word of a well-formed transcript is kept for a clip exactly when its
    time interval meets the interval of the clip: the three cases of the
    filter (starts inside, ends inside, spans the clip) add up to overlap. *)
Theorem in_range_is_overlap (clip_start clip_end : Q) (w : Word) :
  (word_start w <= word_end w)%Q -> (clip_start <= clip_end)%Q ->
  in_range clip_start clip_end w = true <->
  (word_start w <= clip_end /\ clip_start <= word_end w)%Q.
Proof.
  intros Hw Hc. unfold in_range.
  rewrite !orb_true_iff, !andb_true_iff, !Qle_bool_iff. split.
  - intros [[[H1 H2]|[H1 H2]]|[H1 H2]]; split; lra.
  - intros [H1 H2].
    destruct (Qlt_le_dec (word_start w) clip_start) as [Hlt|Hge].
    + destruct (Qlt_le_dec clip_end (word_end w)) as [Hlt2|Hge2].
      * right. split; lra.
      * left. right. split; lra.
    + left. left. split; lra.
Qed.

Lemma in_range_is_overlap_witness :
  in_range 10 20 (mkWord String.EmptyString (19 # 2) (21 # 2)) = true.
Proof.
  destruct word_overlap_witness_data as [Hw Hc].
  apply (in_range_is_overlap 10 20 _ Hw Hc). split; discriminate.
Defined.

(** *** Grouping into blocks *)

Lemma hd_snoc (cur : list Word) (word : Word) :
  word_start (hd no_word (cur ++ [word])) =
  match start_of cur with None => word_start word | Some s => s end.
Proof. now destruct cur. Qed.

Lemma grouping_step (clip_start : Q) (groups : list (list Word)) (g : Grouping) (word : Word) :
  grouping_inv clip_start groups g ->
  exists groups',
    grouping_inv clip_start groups' (add_word clip_start g word) /\
    concat groups' ++ current_block (add_word clip_start g word)
    = concat groups ++ current_block g ++ [word].
Proof.
  intros [Hb Hs He Hf Hl]. unfold add_word. rewrite Hs, <- hd_snoc.
  destruct (Nat.leb_spec words_per_line (length (current_block g ++ [word]))) as [Hfull|Hopen].
  - exists (groups ++ [current_block g ++ [word]]). split.
    + constructor; cbn [subtitle_blocks current_block current_block_start current_block_end].
      * rewrite Hb, map_app. cbn [map]. unfold block_of at 3.
        now rewrite last_last.
      * reflexivity.
      * intros H. now contradiction H.
      * apply Forall_app. split; [exact Hf|]. constructor; [|constructor].
        rewrite length_app in *. cbn [length] in *. unfold words_per_line in Hfull. lia.
      * simpl. lia.
    + cbn [current_block]. rewrite concat_app. cbn [concat].
      now rewrite !app_nil_r, app_assoc.
  - exists groups. split.
    + constructor; cbn [subtitle_blocks current_block current_block_start current_block_end].
      * exact Hb.
      * rewrite hd_snoc. now destruct (current_block g).
      * intros _. now rewrite last_last.
      * exact Hf.
      * unfold words_per_line in Hopen. exact Hopen.
    + reflexivity.
Qed.

Lemma grouping_fold (clip_start : Q) (words : list Word) :
  forall groups g,
    grouping_inv clip_start groups g ->
    exists groups',
      grouping_inv clip_start groups' (fold_left (add_word clip_start) words g) /\
      concat groups' ++ current_block (fold_left (add_word clip_start) words g)
      = concat groups ++ current_block g ++ words.
Proof.
  induction words as [|word rest IH]; intros groups g Hinv; cbn [fold_left].
  - exists groups. split; [exact Hinv|now rewrite app_nil_r].
  - destruct (grouping_step clip_start groups g word Hinv) as (groups1 & Hinv1 & Hcat1).
    destruct (IH groups1 _ Hinv1) as (groups2 & Hinv2 & Hcat2).
    exists groups2. split; [exact Hinv2|].
    rewrite Hcat2, app_assoc, Hcat1, <- !app_assoc. reflexivity.
Qed.

Lemma concat_length_full (groups : list (list Word)) :
  Forall (fun group => length group = 4%nat) groups ->
  length (concat groups) = (4 * length groups)%nat.
Proof.
  induction 1 as [|group groups Hg _ IH]; [reflexivity|].
  cbn [concat length]. rewrite length_app, Hg, IH. lia.
Qed.

(** The loop cuts the words into consecutive groups of four, the last one
    possibly shorter, and never meets the [None] bound that would raise. *)
Lemma group_words_groups (clip_start : Q) (words : list Word) :
  exists groups,
    group_words clip_start words = Some (map (block_of clip_start) groups) /\
    concat groups = words /\
    Forall (fun group => 1 <= length group <= 4)%nat groups /\
    (forall i, (S i < length groups)%nat -> length (nth i groups []) = 4%nat) /\
    length groups = ((length words + 3) / 4)%nat.
Proof.
  assert (H0 : grouping_inv clip_start [] grouping_start).
  { constructor; simpl; auto; try lia. intros H. now contradiction H. }
  destruct (grouping_fold clip_start words [] grouping_start H0)
    as (groups & [Hb Hs He Hf Hl] & Hcat).
  cbn [concat app current_block grouping_start] in Hcat.
  unfold group_words. cbv zeta.
  set (g := fold_left (add_word clip_start) words grouping_start) in *.
  pose proof (concat_length_full groups Hf) as Hlen.
  assert (Hone : Forall (fun group => 1 <= length group <= 4)%nat groups).
  { eapply Forall_impl; [|exact Hf]. cbv beta. intros group Hg. lia. }
  destruct (current_block g) as [|w cur] eqn:Hcur.
  - exists groups. rewrite app_nil_r in Hcat.
    split; [now rewrite Hb|]. split; [exact Hcat|]. split; [exact Hone|]. split.
    + intros i Hi. rewrite Forall_forall in Hf. apply Hf, nth_In. lia.
    + rewrite <- Hcat, Hlen.
      replace (4 * length groups + 3)%nat with (3 + length groups * 4)%nat by lia.
      rewrite Nat.div_add by lia. reflexivity.
  - exists (groups ++ [w :: cur]).
    rewrite Hs, He by discriminate. cbn [start_of].
    split; [|split; [|split; [|split]]].
    + rewrite Hb, map_app. reflexivity.
    + rewrite concat_app. cbn [concat]. now rewrite app_nil_r.
    + apply Forall_app. split; [exact Hone|]. constructor; [|constructor].
      cbn [length] in *. lia.
    + intros i Hi. rewrite length_app in Hi. cbn [length] in Hi.
      rewrite app_nth1 by lia. rewrite Forall_forall in Hf. apply Hf, nth_In. lia.
    + rewrite length_app. cbn [length]. rewrite <- Hcat, length_app, Hlen.
      cbn [length] in *.
      replace (4 * length groups + S (length cur) + 3)%nat
        with (S (length cur) + 3 + length groups * 4)%nat by lia.
      rewrite Nat.div_add by lia.
      replace ((S (length cur) + 3) / 4)%nat with 1%nat; [lia|].
      apply Nat.div_unique with (r := length cur); lia.
Qed.

(** X2. [create_srt_file] groups the words of the clip, in order and without
    losing or repeating any, into blocks of exactly four words followed by at
    most one shorter block: [ceil(n / 4)] blocks for [n] words. A block runs
    from the start of its first word to the end of its last word, both
    relative to the clip start and clamped at 0, and its text is its words
    joined by single spaces. The loop never fails. *)
Theorem group_words_chunks (clip_start : Q) (words : list Word) :
  exists groups,
    group_words clip_start words = Some (map (block_of clip_start) groups) /\
    concat groups = words /\
    Forall (fun group => 1 <= length group <= 4)%nat groups /\
    (forall i, (S i < length groups)%nat -> length (nth i groups []) = 4%nat) /\
    length groups = ((length words + 3) / 4)%nat /\
    (forall group, In group groups ->
       block_start (block_of clip_start group)
         = Qmax 0 (word_start (hd no_word group) - clip_start) /\
       block_end (block_of clip_start group)
         = Qmax 0 (word_end (last group no_word) - clip_start) /\
       block_text (block_of clip_start group) = join_words group).
Proof.
  destruct (group_words_groups clip_start words) as (groups & H1 & H2 & H3 & H4 & H5).
  exists groups. repeat split; auto.
Qed.

(** *** Time stamps *)










(** *** The file *)

Lemma imap_from_numbers {A} (f : A -> Stamp * Stamp * String.string) (l : list A) (s : nat) :
  map entry_number
      (HeatMap.imap_from (fun i x => mkEntry (i + 1) (fst (fst (f x))) (snd (fst (f x)))
                                             (snd (f x))) s l)
  = seq (s + 1) (length l).
Proof.
  revert s. induction l as [|x l IH]; intros s; cbn [HeatMap.imap_from map length];
    [reflexivity|].
  rewrite IH. cbn [entry_number seq].
  replace (S s + 1)%nat with (S (s + 1)) by lia. reflexivity.
Qed.

Lemma srt_entries_numbers (blocks : list Block) :
  map entry_number (srt_entries blocks) = seq 1 (length blocks) /\
  length (srt_entries blocks) = length blocks.
Proof.
  unfold srt_entries, HeatMap.imap. split.
  - apply (imap_from_numbers
             (fun b => (timestamp (block_start b), timestamp (block_end b), block_text b))
             blocks 0).
  - apply imap_from_length.
Qed.

(** X4. [create_srt_file] returns [True] exactly when some word overlaps the
    clip and the file can be written; otherwise it returns [False] and
    writes no entry. On success the file holds one entry per block,
    [ceil(n / 4)] entries for the [n] words in range, numbered 1, 2, ... in
    order. *)
Theorem create_srt_file_outcome (words : list Word) (clip_start clip_end : Q)
        (open_ok : bool) :
  let r := create_srt_file words clip_start clip_end open_ok in
  let n := length (words_in_range clip_start clip_end words) in
  (n = 0%nat <-> forall w, In w words -> in_range clip_start clip_end w = false) /\
  (snd r = true <-> n <> 0%nat /\ open_ok = true) /\
  (snd r = false -> fst r = None) /\
  (snd r = true ->
     exists entries, fst r = Some entries /\
       length entries = ((n + 3) / 4)%nat /\
       map entry_number entries = seq 1 (length entries)).
Proof.
  cbv zeta. unfold create_srt_file.
  split.
  { unfold words_in_range. split.
    - intros Hn w Hw. destruct (in_range clip_start clip_end w) eqn:E; [|reflexivity].
      assert (Hin : In w (filter (in_range clip_start clip_end) words))
        by (apply filter_In; auto).
      apply length_zero_iff_nil in Hn. rewrite Hn in Hin. contradiction.
    - intros Hall. apply length_zero_iff_nil.
      destruct (filter (in_range clip_start clip_end) words) as [|w l] eqn:E; [reflexivity|].
      assert (Hin : In w (filter (in_range clip_start clip_end) words))
        by (rewrite E; now left).
      apply filter_In in Hin. destruct Hin as [Hin Ht].
      rewrite (Hall w Hin) in Ht. discriminate. }
  destruct (words_in_range clip_start clip_end words) as [|w0 ws] eqn:Ew.
  { cbn [fst snd length]. repeat split; try discriminate; tauto. }
  destruct (group_words_groups clip_start (w0 :: ws)) as (groups & Hg & _ & _ & _ & Hlen).
  rewrite Hg.
  destruct (srt_entries_numbers (map (block_of clip_start) groups)) as [Hnum Hcount].
  rewrite length_map in Hnum, Hcount.
  destruct open_ok; cbn [fst snd length].
  - split; [split; [intros _; split; [discriminate|reflexivity]|reflexivity]|].
    split; [discriminate|]. intros _.
    exists (srt_entries (map (block_of clip_start) groups)).
    split; [reflexivity|]. rewrite Hcount, Hnum, Hlen. split; reflexivity.
  - split; [split; [discriminate|intros [_ H]; discriminate]|].
    split; [reflexivity|discriminate].
Qed.

End SrtFacts.

(** ** The clip loop *)

Section DriverFacts.

Import Driver Terms.










End DriverFacts.

(** ** The segments of the first stage *)

Section SegmentFacts.

Import Cascade Samples Terms.

Lemma combine_seq_In {A} (l : list A) :
  forall i j x,
    In (j, x) (combine (seq i (length l)) l) <->
    (i <= j)%nat /\ nth_error l (j - i) = Some x.
Proof.
  induction l as [|a rest IH]; intros i j x; cbn [length seq combine In].
  - split; [contradiction|]. intros [_ H]. now destruct (j - i)%nat.
  - rewrite IH. split.
    + intros [H|[Hle Hn]].
      * injection H as <- <-. split; [lia|]. now rewrite Nat.sub_diag.
      * split; [lia|]. replace (j - i)%nat with (S (j - S i)) by lia. exact Hn.
    + intros [Hle Hn]. destruct (Nat.eq_dec i j) as [<-|Hne].
      * left. rewrite Nat.sub_diag in Hn. cbn in Hn. congruence.
      * right. split; [lia|].
        replace (j - i)%nat with (S (j - S i)) in Hn by lia. exact Hn.
Qed.

Lemma segment_targets_app (l1 l2 : list Event) :
  segment_targets (l1 ++ l2) = segment_targets l1 ++ segment_targets l2.
Proof.
  induction l1 as [|[s|f [i|]] l1 IH]; simpl; auto. now rewrite IH.
Qed.

Lemma surviving_cons (e : Env) (i : nat) (s : Segment) (rest : list Segment) :
  surviving e i (s :: rest) =
  (if segment_usable s && is_ok (ffmpeg_segment e i) then [i] else [])
    ++ surviving e (S i) rest.
Proof.
  unfold surviving. cbn [length seq combine filter fst snd].
  now destruct (segment_usable s && is_ok (ffmpeg_segment e i)).
Qed.

Lemma usable_indices_cons (i : nat) (s : Segment) (rest : list Segment) :
  usable_indices i (s :: rest) =
  (if segment_usable s then [i] else []) ++ usable_indices (S i) rest.
Proof.
  unfold usable_indices. cbn [length seq combine filter fst snd].
  now destruct (segment_usable s).
Qed.

(** The loop over the segments as two comprehensions: the files kept and
    the ffmpeg runs made. *)
Lemma process_segments_spec (e : Env) (segments : list Segment) :
  forall i w files,
    let r := process_segments e i segments w files in
    snd r = files ++ surviving e i segments /\
    segment_targets (log (fst r))
    = segment_targets (log w) ++ usable_indices i segments.
Proof.
  induction segments as [|s rest IH]; intros i w files; cbn [process_segments].
  - cbv zeta. cbn [fst snd]. unfold surviving, usable_indices. cbn.
    now rewrite !app_nil_r.
  - rewrite surviving_cons, usable_indices_cons. unfold segment_usable.
    destruct (start_time s), (end_time s); cbn [andb app]; try apply IH.
    destruct (seg_x s), (seg_y s), (seg_width s), (seg_height s);
      cbn [andb app]; try apply IH.
    destruct (Qle_bool q3 0), (Qle_bool q4 0); cbn [orb andb negb app]; try apply IH.
    destruct (ffmpeg_segment e i) as [|[|]|]; cbn [is_ok app];
      match goal with
      | |- context [process_segments e (S i) rest ?w1 ?f] =>
          specialize (IH (S i) w1 f); cbv zeta in IH |- *;
          destruct IH as [I1 I2]; rewrite I1, I2;
          cbn [log log_event]; rewrite segment_targets_app;
          cbn [segment_targets]; rewrite <- ?app_assoc; split; reflexivity
      end.
Qed.

Lemma surviving_lower_bound (e : Env) (segments : list Segment) :
  forall i j, In j (surviving e i segments) -> (i <= j)%nat.
Proof.
  induction segments as [|s rest IH]; intros i j Hj; [contradiction|].
  rewrite surviving_cons in Hj. apply in_app_or in Hj. destruct Hj as [Hj|Hj].
  - destruct (segment_usable s && is_ok (ffmpeg_segment e i)); [|contradiction].
    destruct Hj as [<-|[]]. lia.
  - apply IH in Hj. lia.
Qed.

Lemma surviving_sorted (e : Env) (segments : list Segment) :
  forall i, StronglySorted lt (surviving e i segments).
Proof.
  induction segments as [|s rest IH]; intros i; [constructor|].
  rewrite surviving_cons.
  destruct (segment_usable s && is_ok (ffmpeg_segment e i)); cbn [app]; [|apply IH].
  constructor; [apply IH|]. apply Forall_forall. intros j Hj.
  apply surviving_lower_bound in Hj. lia.
Qed.

(** X8. In the first stage a segment is handed to ffmpeg exactly when it has
    both times, all four crop fields and a positive width and height, and
    its file is kept exactly when in addition ffmpeg exits with status 0.
    The kept files are listed in the order of the segments, so the
    concatenation follows the original time order; the concatenation into
    the output file is run only when at least one file was kept. *)
Theorem segments_survive_in_order (e : Env) (w : World) (segments : list Segment) :
  clipsai_resize e = ResizeSegments segments ->
  let r := process_segments e 0 segments (make_dir TempResize (log_event (Enter Method1) w)) [] in
  StronglySorted lt (snd r) /\
  (forall j, In j (snd r) <->
     exists s, nth_error segments j = Some s /\ segment_usable s = true /\
               ffmpeg_segment e j = FfOk) /\
  (forall j, In j (segment_targets (log (fst r))) <->
     In j (segment_targets (log w)) \/
     exists s, nth_error segments j = Some s /\ segment_usable s = true) /\
  output_runs (log (fst (method1 e w)))
  = output_runs (log w) ++ match snd r with [] => [] | _ :: _ => [ConcatCopy (snd r)] end.
Proof.
  intros Hres r.
  destruct (process_segments_spec e segments 0
              (make_dir TempResize (log_event (Enter Method1) w)) []) as [H1 H2].
  cbv zeta in H1, H2. fold r in H1, H2. cbn [app] in H1.
  split; [rewrite H1; apply surviving_sorted|]. split; [|split].
  - intros j. rewrite H1. unfold surviving. rewrite in_map_iff. split.
    + intros ([k s] & <- & Hin). apply filter_In in Hin. destruct Hin as [Hin Hok].
      apply combine_seq_In in Hin. destruct Hin as [_ Hn]. rewrite Nat.sub_0_r in Hn.
      cbn [fst snd] in *. apply andb_true_iff in Hok. destruct Hok as [Hu Hf].
      exists s. repeat split; auto. now destruct (ffmpeg_segment e k).
    + intros (s & Hn & Hu & Hf). exists (j, s). split; [reflexivity|].
      apply filter_In. split.
      * apply combine_seq_In. split; [lia|]. now rewrite Nat.sub_0_r.
      * cbn [fst snd]. now rewrite Hu, Hf.
  - intros j. rewrite H2.
    cbn [log make_dir log_event]. rewrite segment_targets_app. cbn [segment_targets].
    rewrite app_nil_r, in_app_iff. unfold usable_indices. rewrite in_map_iff.
    split; (intros [Hold|Hnew]; [now left|right]).
    + destruct Hnew as ([k s] & <- & Hin). apply filter_In in Hin.
      destruct Hin as [Hin Hu]. apply combine_seq_In in Hin.
      destruct Hin as [_ Hn]. rewrite Nat.sub_0_r in Hn. exists s. auto.
    + destruct Hnew as (s & Hn & Hu). exists (j, s). split; [reflexivity|].
      apply filter_In. split; [|exact Hu].
      apply combine_seq_In. split; [lia|]. now rewrite Nat.sub_0_r.
  - unfold method1. rewrite Hres.
    pose proof (process_segments_frame e segments 0
                  (make_dir TempResize (log_event (Enter Method1) w)) []) as F.
    cbv zeta in F. fold r in F. destruct F as (_ & _ & _ & F4 & _).
    assert (Hbase : output_runs (log (make_dir TempResize (log_event (Enter Method1) w)))
                    = output_runs (log w)).
    { cbn [log make_dir log_event]. rewrite output_runs_app. cbn. apply app_nil_r. }
    destruct segments as [|s0 rest].
    + subst r. cbn [process_segments snd fst].
      cbn [log log_event]. rewrite output_runs_app. reflexivity.
    + fold r. destruct r as [w1 files]. cbn [fst snd] in *.
      destruct files as [|f files]; cbn [fst].
      * rewrite F4, Hbase, app_nil_r. reflexivity.
      * cbn [log write_output log_event]. rewrite output_runs_app, F4, Hbase.
        reflexivity.
Qed.

Lemma segments_survive_in_order_witness :
  snd (process_segments env_one_segment 0
         [mkSegment (Some 0%Q) (Some 12%Q) (Some (1 # 4)) (Some 0%Q) (Some (1 # 2)) (Some 1%Q)]
         (make_dir TempResize (log_event (Enter Method1) fresh)) []) = [0%nat] /\
  output_runs (log (fst (method1 env_one_segment fresh))) = [ConcatCopy [0%nat]].
Proof.
  pose proof (segments_survive_in_order env_one_segment fresh _ eq_refl) as H.
  cbv zeta in H. destruct H as (_ & _ & _ & H).
  split; [reflexivity|exact H].
Defined.

End SegmentFacts.

(** ** The frame sampler *)

Section SamplerFacts.

Import Scenes.



End SamplerFacts.

(** ** The aggregated map, pixel by pixel *)

Section AggregateFacts.

Import HeatMap Terms.










(** *** Order of the key frames *)


















End AggregateFacts.

(** ** The cost of the window search *)

Section SearchCost.

Import Selector.

Lemma py_range_length (stop step : Z) :
  length (py_range 0 stop step) = Z.to_nat ((stop - 0 + step - 1) / step).
Proof. unfold py_range. now rewrite length_map, length_seq. Qed.

(** X12. The search evaluates at least one and at most 20 windows, whatever
    the frame size: every position when fewer than 10 columns are left over,
    exactly 11 windows when at least 100 are. The windows start at the left
    edge, and the columns right of the last window number fewer than one
    step. *)
Theorem search_evaluates_at_most_twenty_windows (width target_width : Z) :
  0 <= target_width <= width ->
  let d := width - target_width in
  let step := step_size width target_width in
  let n := Z.of_nat (length (candidates width target_width)) in
  n = d / step + 1 /\
  1 <= n <= 20 /\
  (d < 10 -> step = 1 /\ n = d + 1) /\
  (100 <= d -> n = 11) /\
  In 0 (candidates width target_width) /\
  In (d / step * step) (candidates width target_width) /\
  d - d / step * step < step.
Proof.
  intros Htw d step n.
  assert (Hd : 0 <= d) by (unfold d; lia).
  assert (Hstep : 0 < step) by apply step_size_pos.
  assert (Hn : n = d / step + 1).
  { unfold n, candidates. rewrite py_range_length. fold step.
    replace (width - target_width + 1 - 0 + step - 1) with (d + 1 * step) by (unfold d; lia).
    rewrite Z.div_add by lia.
    assert (0 <= d / step) by (apply Z.div_pos; lia). lia. }
  pose proof (Z.div_mod d 10 ltac:(lia)) as D10.
  pose proof (Z.mod_pos_bound d 10 ltac:(lia)) as B10.
  pose proof (Z.div_mod d step ltac:(lia)) as Ds.
  pose proof (Z.mod_pos_bound d step ltac:(lia)) as Bs.
  assert (Hq0 : 0 <= d / step) by (apply Z.div_pos; lia).
  assert (Estep : step = Z.max 1 (d / 10)) by reflexivity.
  split; [exact Hn|]. split; [|split; [|split; [|split; [|split]]]].
  - split; [lia|]. rewrite Hn.
    assert (d / step < 20); [|lia].
    apply Z.div_lt_upper_bound; [lia|].
    destruct (Z.max_spec 1 (d / 10)) as [[Hlt Hm]|[Hge Hm]]; rewrite Estep, Hm; lia.
  - intros Hsmall.
    assert (Hz : d / 10 = 0) by (apply Z.div_small; lia).
    assert (Hs1 : step = 1) by (rewrite Estep, Hz; reflexivity).
    split; [exact Hs1|]. rewrite Hn, Hs1, Z.div_1_r. reflexivity.
  - intros Hbig. rewrite Hn.
    assert (Hq : 10 <= d / 10) by (apply Z.div_le_lower_bound; lia).
    assert (Hs : step = d / 10) by (rewrite Estep; lia).
    assert (d / step = 10); [|lia].
    assert (10 <= d / step) by (apply Z.div_le_lower_bound; lia).
    assert (d / step < 11) by (apply Z.div_lt_upper_bound; lia).
    lia.
  - apply candidates_In. exists 0. lia.
  - apply candidates_In. exists (d / step). fold d. fold step in Estep.
    rewrite <- Estep. split; [lia|]. split; [reflexivity|]. nia.
  - nia.
Qed.

Lemma search_evaluates_at_most_twenty_windows_witness :
  Z.of_nat (length (candidates 1920 607)) = 11 /\
  Z.of_nat (length (candidates 626 607)) = 20.
Proof.
  pose proof (search_evaluates_at_most_twenty_windows 1920 607 ltac:(lia)) as H.
  cbv zeta in H. destruct H as (_ & _ & _ & H & _).
  split; [apply H; lia|reflexivity].
Defined.

End SearchCost.

(** ** The five positions of the heuristic crop *)

Section HeuristicGeometry.

Import Heuristic.
Local Open Scope string_scope.

Lemma max0_of_nonneg (v : Q) : (0 <= v)%Q -> (max0 v == v)%Q.
Proof. intros H. unfold max0. now apply Q.max_r. Qed.

Lemma max0_of_nonpos (v : Q) : (v <= 0)%Q -> (max0 v == 0)%Q.
Proof. intros H. unfold max0. now apply Q.max_l. Qed.

(** X13. Each of the five candidate crops has the frame height, the width
    [height * 9/16], vertical offset 0 and a non-negative horizontal
    offset. On a frame at least as wide as that width every candidate lies
    inside the frame, from the left edge (left_align) through golden_right,
    center and golden_left to the right edge (right_align). On a narrower
    frame every candidate starts at 0 and is wider than the frame. *)
Theorem heuristic_candidates_geometry (width height : Q) :
  let tw := (height * (9 / 16))%Q in
  map pos_desc (crop_positions width height)
  = ["center"; "golden_left"; "golden_right"; "left_align"; "right_align"] /\
  Forall (fun p => 0 <= pos_x p /\ pos_y p = 0 /\ pos_width p = tw /\
                   pos_height p = height)%Q
         (crop_positions width height) /\
  (tw <= width ->
     Forall (fun p => pos_x p + pos_width p <= width)%Q (crop_positions width height) /\
     exists c gl gr la ra,
       map pos_x (crop_positions width height) = [c; gl; gr; la; ra] /\
       (la == 0 /\ la <= gr /\ gr <= c /\ c <= gl /\ gl <= ra /\ ra + tw == width)%Q)%Q /\
  (width < tw ->
     Forall (fun p => pos_x p == 0 /\ width < pos_x p + pos_width p)%Q
            (crop_positions width height))%Q.
Proof.
  cbv zeta. unfold crop_positions, left_golden, right_golden, target_width,
    target_height, golden_ratio.
  set (tw := (height * (9 / 16))%Q).
  split; [reflexivity|]. split; [|split].
  - repeat constructor; cbn [pos_x]; unfold max0;
      first [apply Q.le_max_l | apply Qle_refl].
  - intros Hfit.
    assert (Hd : (0 <= width - tw)%Q) by lra.
    assert (Hhalf : ((width - tw) / 2 == (width - tw) * (1 # 2))%Q) by reflexivity.
    pose proof (max0_of_nonneg ((width - tw) / 2) ltac:(rewrite Hhalf; lra)) as E1.
    pose proof (max0_of_nonneg ((width - tw) * (618 # 1000)) ltac:(lra)) as E2.
    pose proof (max0_of_nonneg ((width - tw) * (1 - (618 # 1000))) ltac:(lra)) as E3.
    pose proof (max0_of_nonneg (width - tw) Hd) as E4.
    split.
    + repeat constructor; cbn [pos_x pos_width]; lra.
    + do 5 eexists. split; [reflexivity|]. cbn [pos_x]. repeat split; lra.
  - intros Hnarrow.
    assert (Hhalf : ((width - tw) / 2 == (width - tw) * (1 # 2))%Q) by reflexivity.
    pose proof (max0_of_nonpos ((width - tw) / 2) ltac:(rewrite Hhalf; lra)) as E1.
    pose proof (max0_of_nonpos ((width - tw) * (618 # 1000)) ltac:(lra)) as E2.
    pose proof (max0_of_nonpos ((width - tw) * (1 - (618 # 1000))) ltac:(lra)) as E3.
    pose proof (max0_of_nonpos (width - tw) ltac:(lra)) as E4.
    repeat constructor; cbn [pos_x pos_width]; lra.
Qed.

Lemma heuristic_candidates_geometry_witness :
  Forall (fun p => pos_x p + pos_width p <= 1920)%Q (crop_positions 1920 1080) /\
  Forall (fun p => pos_x p == 0 /\ 500 < pos_x p + pos_width p)%Q (crop_positions 500 1000).
Proof.
  pose proof (heuristic_candidates_geometry 1920 1080) as H1.
  pose proof (heuristic_candidates_geometry 500 1000) as H2.
  cbv zeta in H1, H2.
  destruct H1 as (_ & _ & H1 & _). destruct H2 as (_ & _ & _ & H2).
  split; [apply H1|apply H2]; vm_compute; reflexivity || discriminate.
Defined.

End HeuristicGeometry.

(** ** Working directories of the later stages *)

Section CleanupFacts.

Import Cascade Samples.

Lemma remove_dir_gone (d : TempDir) (w : World) : ~ In d (temp_dirs (remove_dir d w)).
Proof.
  unfold remove_dir. cbn [temp_dirs]. intros H. apply filter_In in H.
  destruct H as [_ H]. now destruct d.
Qed.

(** X14. The second stage removes its [scene_analysis_] directory exactly on
    the path where ffmpeg was started and returned, whether with success or
    with an error, and [rmtree] worked. The directory is left behind when
    the analysis or the start of ffmpeg raises. The third stage likewise
    leaves [scene_analysis] behind when no frame could be extracted or the
    start of ffmpeg raises. Neither creates its directory when its probe
    or scene detection fails first. *)
Theorem later_stages_clean_up_on_normal_path_only (e : Env) (w : World) :
  ~ In SceneAnalysisTmp (temp_dirs w) -> ~ In FramesDir (temp_dirs w) ->
  (In SceneAnalysisTmp (temp_dirs (fst (method1_5 e w))) <->
     detect_scenes e <> None /\
     (analysis_raises e = true \/ ffmpeg_scene e = FfRaise \/
      rmtree_ok e SceneAnalysisTmp = false)) /\
  (In FramesDir (temp_dirs (fst (method2 e w))) <->
     (exists width height, ffprobe e = ProbeOk width height) /\
     (frame_files e = [] \/ ffmpeg_advanced e = FfRaise \/
      rmtree_ok e FramesDir = false)).
Proof.
  intros H2 H3. split.
  - unfold method1_5.
    destruct (detect_scenes e) as [scene_list|].
    2: { cbn [fst temp_dirs log_event]. split; [tauto|]. intros [H _]. now contradiction H. }
    assert (Hmk : forall w0, In SceneAnalysisTmp (temp_dirs (make_dir SceneAnalysisTmp w0)))
      by (intros w0; apply make_dir_In).
    destruct (analysis_raises e).
    { cbn [fst]. split; [intros _; split; [discriminate|auto]|intros _; apply Hmk]. }
    destruct (ffmpeg_scene e) as [|[|]|] eqn:Ef;
      destruct (rmtree_ok e SceneAnalysisTmp) eqn:Er; cbn [fst];
      (split;
       [ intros Hin; split; [discriminate|];
         first [ exfalso; exact (remove_dir_gone _ _ Hin) | auto ]
       | intros [_ [Hc|[Hc|Hc]]]; try discriminate;
         exact (Hmk _) ]).
  - unfold method2.
    destruct (ffprobe e) as [| |width height].
    1-2: (cbn [fst temp_dirs log_event]; split; [tauto|];
          intros [(wd & ht & H) _]; discriminate).
    assert (Hmk : forall w0, In FramesDir (temp_dirs (make_dir FramesDir w0)))
      by (intros w0; apply make_dir_In).
    destruct (frame_files e) as [|ff ffs].
    { cbn [fst]. split; [intros _; split; [eauto|auto]|intros _; apply Hmk]. }
    destruct (ffmpeg_advanced e) as [|[|]|] eqn:Ef;
      destruct (rmtree_ok e FramesDir) eqn:Er; cbn [fst];
      (split;
       [ intros Hin; split; [eauto|];
         first [ exfalso; exact (remove_dir_gone _ _ Hin) | auto ]
       | intros [_ [Hc|[Hc|Hc]]]; try discriminate;
         exact (Hmk _) ]).
Qed.

Lemma later_stages_clean_up_on_normal_path_only_witness :
  ~ In SceneAnalysisTmp (temp_dirs (fst (method1_5 env_no_frames fresh))) /\
  ~ In FramesDir (temp_dirs (fst (method2 env_all_fail fresh))).
Proof.
  pose proof (later_stages_clean_up_on_normal_path_only env_no_frames fresh
                (fun H => H) (fun H => H)) as [H1 _].
  pose proof (later_stages_clean_up_on_normal_path_only env_all_fail fresh
                (fun H => H) (fun H => H)) as [_ H2].
  split.
  - intros Hin. apply H1 in Hin. destruct Hin as [_ [Hc|[Hc|Hc]]]; discriminate.
  - intros Hin. apply H2 in Hin. destruct Hin as [(wd & ht & Hc) _]. discriminate.
Defined.

End CleanupFacts.

(** ** Subtitle blocks of a chronological transcript *)

Section BlockTimes.

Import Srt Terms.

Lemma sorted_app_parts {A} (R : A -> A -> Prop) (l1 l2 : list A) :
  StronglySorted R (l1 ++ l2) -> StronglySorted R l1 /\ StronglySorted R l2.
Proof.
  induction l1 as [|a l1 IH]; cbn [app]; intros H; [split; [constructor|exact H]|].
  inversion H as [|? ? Htl Hall]; subst. destruct (IH Htl) as [H1 H2].
  split; [|exact H2]. constructor; [exact H1|].
  apply Forall_app in Hall. tauto.
Qed.

Lemma sorted_hd_last (group : list Word) :
  group <> [] ->
  StronglySorted (fun a b => word_start a <= word_start b)%Q group ->
  (word_start (hd no_word group) <= word_start (last group no_word))%Q.
Proof.
  destruct group as [|a rest]; [intros H; now contradiction H|]. intros _ Hs.
  destruct rest as [|b rest]; [apply Qle_refl|].
  inversion Hs as [|? ? _ Hall]; subst. rewrite Forall_forall in Hall.
  cbn [hd]. apply Hall.
  change (last (a :: b :: rest) no_word) with (last (b :: rest) no_word).
  destruct (exists_last (l := b :: rest) ltac:(discriminate)) as (l' & x & E).
  rewrite E, last_last. apply in_elt.
Qed.

Lemma last_in_group (group : list Word) :
  group <> [] -> In (last group no_word) group.
Proof.
  intros H. destruct (exists_last H) as (l' & x & E).
  rewrite E, last_last. apply in_elt.
Qed.

Lemma group_in_concat {A} (groups : list (list A)) (group : list A) :
  In group groups -> exists l1 l2, concat groups = l1 ++ group ++ l2.
Proof.
  intros H. apply in_split in H. destruct H as (g1 & g2 & ->).
  exists (concat g1), (concat g2). rewrite concat_app. reflexivity.
Qed.

(** X5. When the words of a transcript are listed by increasing start time
    and no word ends before it starts, every subtitle block has a start time
    that is not negative and not after its end time. *)
Theorem blocks_run_forward (clip_start : Q) (words : list Word) :
  Forall (fun w => word_start w <= word_end w)%Q words ->
  StronglySorted (fun a b => word_start a <= word_start b)%Q words ->
  exists blocks,
    group_words clip_start words = Some blocks /\
    Forall (fun b => 0 <= block_start b /\ block_start b <= block_end b)%Q blocks.
Proof.
  intros Hwf Hsorted.
  destruct (group_words_groups clip_start words) as (groups & Hg & Hcat & Hone & _).
  exists (map (block_of clip_start) groups). split; [exact Hg|].
  apply Forall_map, Forall_forall. intros group Hin.
  rewrite Forall_forall in Hone. specialize (Hone group Hin).
  assert (Hne : group <> []) by (intros ->; cbn in Hone; lia).
  destruct (group_in_concat groups group Hin) as (l1 & l2 & Hsplit).
  rewrite Hcat in Hsplit. rewrite Hsplit in Hsorted, Hwf.
  apply sorted_app_parts in Hsorted. destruct Hsorted as [_ Hsorted].
  apply sorted_app_parts in Hsorted. destruct Hsorted as [Hsorted _].
  apply Forall_app in Hwf. destruct Hwf as [_ Hwf].
  apply Forall_app in Hwf. destruct Hwf as [Hwf _].
  rewrite Forall_forall in Hwf.
  pose proof (Hwf _ (last_in_group group Hne)) as Hlast.
  pose proof (sorted_hd_last group Hne Hsorted) as Hhd.
  unfold block_of, make_block. cbn [block_start block_end]. split.
  - apply Q.le_max_l.
  - apply Q.max_le_compat_l. lra.
Qed.

Lemma sample_words_chronological :
  Forall (fun w => word_start w <= word_end w)%Q sample_words /\
  StronglySorted (fun a b => word_start a <= word_start b)%Q sample_words.
Proof.
  split; unfold sample_words; repeat constructor; cbn; discriminate.
Qed.

Lemma blocks_run_forward_witness :
  exists blocks,
    group_words 0 sample_words = Some blocks /\
    Forall (fun b => 0 <= block_start b /\ block_start b <= block_end b)%Q blocks.
Proof.
  destruct sample_words_chronological as [H1 H2].
  exact (blocks_run_forward 0 sample_words H1 H2).
Defined.

End BlockTimes.
